(** * Tic-Tac-Toe: the game engine and its minimax search

    A shallow embedding of the [TicTacToe] class that both front-ends
    ([tic-tac-toe.py] for the console, [tic_tac_toe_gui.py] for pygame)
    carry, followed by the properties of the engine.

    The Python object is a record that every method receives and
    returns; methods that can raise return a [res] next to the state
    the object is left in. *)

From Stdlib Require Import ZArith List Bool Lia Orders OrdersTac Sorted.
Import ListNotations.
Local Open Scope Z_scope.

(** ** Marks, cells and the 3x3 grid *)

(** The two one-character strings ['X'] and ['O']. *)
Inductive mark : Type := MarkX | MarkO.

(** A cell of the grid: [None] is the blank [' ']. *)
Definition cell : Type := option mark.

Definition mark_eqb (a b : mark) : bool :=
  match a, b with
  | MarkX, MarkX | MarkO, MarkO => true
  | _, _ => false
  end.

Definition cell_eqb (a b : cell) : bool :=
  match a, b with
  | None, None => true
  | Some x, Some y => mark_eqb x y
  | _, _ => false
  end.

(** The values [range(3)] runs through. *)
Inductive idx : Type := I0 | I1 | I2.

Definition range3 : list idx := [I0; I1; I2].

Definition Z_of_idx (i : idx) : Z :=
  match i with I0 => 0 | I1 => 1 | I2 => 2 end.

(** Subscripting a Python list of length 3 with an [int]: 0..2 are the
    positions themselves, -3..-1 count from the end, anything else
    raises [IndexError] ([None] here). *)
Definition py_index (i : Z) : option idx :=
  if i =? 0 then Some I0 else if i =? 1 then Some I1 else if i =? 2 then Some I2
  else if i =? -3 then Some I0 else if i =? -2 then Some I1
  else if i =? -1 then Some I2 else None.

(** A list whose length is always 3.  The grid is built by
    [[[' ' for _ in range(3)] for _ in range(3)]] and afterwards only
    changed by item assignment, so both levels keep that length. *)
Definition vec3 (A : Type) : Type := (A * A * A)%type.

Definition nth3 {A} (v : vec3 A) (i : idx) : A :=
  let '(a, b, c) := v in
  match i with I0 => a | I1 => b | I2 => c end.

Definition upd3 {A} (v : vec3 A) (i : idx) (x : A) : vec3 A :=
  let '(a, b, c) := v in
  match i with I0 => (x, b, c) | I1 => (a, x, c) | I2 => (a, b, x) end.

Definition to_list3 {A} (v : vec3 A) : list A :=
  let '(a, b, c) := v in [a; b; c].

Definition grid : Type := vec3 (vec3 cell).

(** [b[row][col]] *)
Definition get_cell (b : grid) (row col : idx) : cell :=
  nth3 (nth3 b row) col.

(** [b[row][col] = x] *)
Definition set_cell (b : grid) (row col : idx) (x : cell) : grid :=
  upd3 b row (upd3 (nth3 b row) col x).

Definition empty_row : vec3 cell := (None, None, None).
Definition empty_grid : grid := (empty_row, empty_row, empty_row).

(** ** The game object *)

(** [ai_difficulty] only ever holds ["easy"], ["medium"] or ["hard"]. *)
Inductive difficulty : Type := Easy | Medium | Hard.

Record TicTacToe : Type := mkGame {
  board : grid;
  current_player : mark;
  game_over : bool;
  winner : option mark;
  moves_count : Z;
  ai_enabled : bool;
  ai_difficulty : difficulty
}.

Definition set_board (s : TicTacToe) (b : grid) : TicTacToe :=
  mkGame b (current_player s) (game_over s) (winner s) (moves_count s)
         (ai_enabled s) (ai_difficulty s).

Definition set_current_player (s : TicTacToe) (p : mark) : TicTacToe :=
  mkGame (board s) p (game_over s) (winner s) (moves_count s)
         (ai_enabled s) (ai_difficulty s).

Definition set_game_over (s : TicTacToe) (g : bool) : TicTacToe :=
  mkGame (board s) (current_player s) g (winner s) (moves_count s)
         (ai_enabled s) (ai_difficulty s).

Definition set_winner (s : TicTacToe) (w : option mark) : TicTacToe :=
  mkGame (board s) (current_player s) (game_over s) w (moves_count s)
         (ai_enabled s) (ai_difficulty s).

Definition set_moves_count (s : TicTacToe) (n : Z) : TicTacToe :=
  mkGame (board s) (current_player s) (game_over s) (winner s) n
         (ai_enabled s) (ai_difficulty s).

Definition set_ai (s : TicTacToe) (e : bool) (d : difficulty) : TicTacToe :=
  mkGame (board s) (current_player s) (game_over s) (winner s)
         (moves_count s) e d.

(** [__init__] *)
Definition new_game : TicTacToe :=
  mkGame empty_grid MarkX false None 0 false Medium.

(** [reset_game]: the two AI settings are not touched. *)
Definition reset_game (s : TicTacToe) : TicTacToe :=
  mkGame empty_grid MarkX false None 0 (ai_enabled s) (ai_difficulty s).

(** What a method call leaves behind: a returned value or the exception
    it raised.  [OutOfFuel] is not Python's: it marks a run of the
    bounded recursion below that was given too little fuel. *)
Inductive res (A : Type) : Type :=
| Ok (a : A)
| IndexError
| OutOfFuel.
Arguments Ok {A} a.
Arguments IndexError {A}.
Arguments OutOfFuel {A}.

(** [l.count(player)] *)
Definition count (player : cell) (l : list cell) : Z :=
  Z.of_nat (length (filter (cell_eqb player) l)).

(** The body of [check_win] for a given [player]. *)
Definition has_win (b : grid) (player : cell) : bool :=
  existsb (fun row => count player (to_list3 row) =? 3) (to_list3 b)
  || existsb
       (fun col => count player (map (fun row => get_cell b row col) range3) =? 3)
       range3
  || (cell_eqb (get_cell b I0 I0) (get_cell b I1 I1)
      && cell_eqb (get_cell b I1 I1) (get_cell b I2 I2)
      && cell_eqb (get_cell b I2 I2) player)
  || (cell_eqb (get_cell b I0 I2) (get_cell b I1 I1)
      && cell_eqb (get_cell b I1 I1) (get_cell b I2 I0)
      && cell_eqb (get_cell b I2 I0) player).

(** [check_win]: has the player whose turn it is a full line? *)
Definition check_win (s : TicTacToe) : bool :=
  has_win (board s) (Some (current_player s)).

Definition other (p : mark) : mark :=
  match p with MarkX => MarkO | MarkO => MarkX end.

(** [make_move(row, col)].  The first subscript that is out of range
    raises before anything has been assigned. *)
Definition make_move (s : TicTacToe) (row col : Z) : res bool * TicTacToe :=
  if game_over s then (Ok false, s)
  else
    match py_index row with
    | None => (IndexError, s)
    | Some r =>
      match py_index col with
      | None => (IndexError, s)
      | Some c =>
        match get_cell (board s) r c with
        | Some _ => (Ok false, s)
        | None =>
          let s1 := set_board s (set_cell (board s) r c (Some (current_player s))) in
          let s2 := set_moves_count s1 (moves_count s1 + 1) in
          if check_win s2 then
            (Ok true, set_winner (set_game_over s2 true) (Some (current_player s2)))
          else if moves_count s2 =? 9 then
            (Ok true, set_game_over s2 true)
          else
            (Ok true, set_current_player s2 (other (current_player s2)))
        end
      end
    end.

(** [get_empty_cells]: the blank cells, rows first, as the two nested
    [range(3)] loops append them. *)
Definition get_empty_cells (s : TicTacToe) : list (idx * idx) :=
  flat_map
    (fun i =>
       flat_map
         (fun j =>
            match get_cell (board s) i j with
            | None => [(i, j)]
            | Some _ => []
            end)
         range3)
    range3.

(** [is_board_full] *)
Definition is_board_full (s : TicTacToe) : bool := moves_count s =? 9.

(** ** Scores *)

(** A score is a Python [int] or one of [float('-inf')], [float('inf')]:
    the search starts its running best and its window at the
    infinities. *)
Inductive ext : Type := NegInf | Fin (z : Z) | PosInf.

(** [a < b] *)
Definition ext_ltb (a b : ext) : bool :=
  match a, b with
  | NegInf, NegInf => false
  | NegInf, _ => true
  | Fin x, Fin y => x <? y
  | Fin _, PosInf => true
  | _, _ => false
  end.

(** [a <= b] *)
Definition ext_leb (a b : ext) : bool := negb (ext_ltb b a).

(** [max(a, b)]: the first argument unless the second is larger. *)
Definition ext_max (a b : ext) : ext := if ext_ltb a b then b else a.

(** [min(a, b)]: the first argument unless the second is smaller. *)
Definition ext_min (a b : ext) : ext := if ext_ltb b a then b else a.

(** The dict [minimax] returns.  [move = None]: no ['move'] key;
    [move = Some None]: the key holds [None]; [move = Some (Some c)]:
    the key holds the tuple [c]. *)
Record search_result : Type := mkResult {
  score : ext;
  move : option (option (idx * idx))
}.

(** [{'score': v}] *)
Definition leaf (v : Z) : search_result := mkResult (Fin v) None.

(** [max_depth = {'easy': 1, 'medium': 3, 'hard': 9}] *)
Definition max_depth (d : difficulty) : Z :=
  match d with Easy => 1 | Medium => 3 | Hard => 9 end.

(** ** The search *)

(** The speculative placement inside the loops of [minimax]: write the
    mark, count the move, and record a win in [winner].  [current_player]
    has been set to [p] before the loop, so [check_win] looks at [p]. *)
Definition place (s : TicTacToe) (row col : idx) (p : mark) : TicTacToe :=
  let s1 := set_board s (set_cell (board s) row col (Some p)) in
  let s2 := set_moves_count s1 (moves_count s1 + 1) in
  if check_win s2 then set_winner s2 (Some p) else s2.

(** "Undo the move": blank the cell, uncount it, clear [winner]. *)
Definition undo (s : TicTacToe) (row col : idx) : TicTacToe :=
  let s1 := set_board s (set_cell (board s) row col None) in
  let s2 := set_moves_count s1 (moves_count s1 - 1) in
  set_winner s2 None.

(** The type of [minimax] once its fuel is fixed. *)
Definition search : Type :=
  TicTacToe -> Z -> bool -> ext -> ext -> res search_result * TicTacToe.

(** The [for cell in self.get_empty_cells()] loop of the maximizing
    branch.  [cells] is the list computed when the loop was entered;
    an early [Ok] is the [break]. *)
Fixpoint max_loop (rec : search) (cells : list (idx * idx)) (s : TicTacToe)
    (depth : Z) (best_score : ext) (best_move : option (idx * idx))
    (alpha beta : ext) : res (ext * option (idx * idx)) * TicTacToe :=
  match cells with
  | [] => (Ok (best_score, best_move), s)
  | (row, col) :: rest =>
    match rec (place s row col MarkO) (depth + 1) false alpha beta with
    | (Ok result, s1) =>
      let s2 := undo s1 row col in
      let best_score' :=
        if ext_ltb best_score (score result) then score result else best_score in
      let best_move' :=
        if ext_ltb best_score (score result) then Some (row, col) else best_move in
      let alpha' := ext_max alpha best_score' in
      if ext_leb beta alpha' then (Ok (best_score', best_move'), s2)
      else max_loop rec rest s2 depth best_score' best_move' alpha' beta
    | (IndexError, s1) => (IndexError, s1)
    | (OutOfFuel, s1) => (OutOfFuel, s1)
    end
  end.

(** The loop of the minimizing branch. *)
Fixpoint min_loop (rec : search) (cells : list (idx * idx)) (s : TicTacToe)
    (depth : Z) (best_score : ext) (best_move : option (idx * idx))
    (alpha beta : ext) : res (ext * option (idx * idx)) * TicTacToe :=
  match cells with
  | [] => (Ok (best_score, best_move), s)
  | (row, col) :: rest =>
    match rec (place s row col MarkX) (depth + 1) true alpha beta with
    | (Ok result, s1) =>
      let s2 := undo s1 row col in
      let best_score' :=
        if ext_ltb (score result) best_score then score result else best_score in
      let best_move' :=
        if ext_ltb (score result) best_score then Some (row, col) else best_move in
      let beta' := ext_min beta best_score' in
      if ext_leb beta' alpha then (Ok (best_score', best_move'), s2)
      else min_loop rec rest s2 depth best_score' best_move' alpha beta'
    | (IndexError, s1) => (IndexError, s1)
    | (OutOfFuel, s1) => (OutOfFuel, s1)
    end
  end.

(** [minimax(depth, is_maximizing, alpha, beta)] with a bound on the
    nesting of the recursive calls. *)
Fixpoint minimax_fuel (fuel : nat) (s : TicTacToe) (depth : Z)
    (is_maximizing : bool) (alpha beta : ext)
    : res search_result * TicTacToe :=
  match fuel with
  | O => (OutOfFuel, s)
  | S fuel' =>
    match winner s with
    | Some MarkO => (Ok (leaf (10 - depth)), s)
    | Some MarkX => (Ok (leaf (depth - 10)), s)
    | None =>
      if is_board_full s then (Ok (leaf 0), s)
      else if max_depth (ai_difficulty s) <=? depth then (Ok (leaf 0), s)
      else if is_maximizing then
        let player_before := current_player s in
        let s1 := set_current_player s MarkO in
        match max_loop (minimax_fuel fuel') (get_empty_cells s1) s1 depth
                       NegInf None alpha beta with
        | (Ok (best_score, best_move), s2) =>
          (Ok (mkResult best_score (Some best_move)),
           set_current_player s2 player_before)
        | (IndexError, s2) => (IndexError, s2)
        | (OutOfFuel, s2) => (OutOfFuel, s2)
        end
      else
        let player_before := current_player s in
        let s1 := set_current_player s MarkX in
        match min_loop (minimax_fuel fuel') (get_empty_cells s1) s1 depth
                       PosInf None alpha beta with
        | (Ok (best_score, best_move), s2) =>
          (Ok (mkResult best_score (Some best_move)),
           set_current_player s2 player_before)
        | (IndexError, s2) => (IndexError, s2)
        | (OutOfFuel, s2) => (OutOfFuel, s2)
        end
    end
  end.

(** Every nested call has placed one more mark, so the calls nest at
    most nine deep below the first one ([minimax_fuel_enough]). *)
Definition minimax (s : TicTacToe) (depth : Z) (is_maximizing : bool)
    (alpha beta : ext) : res search_result * TicTacToe :=
  minimax_fuel 10 s depth is_maximizing alpha beta.

(** ** The computer's move *)

(** Drops the value of a call made as a statement. *)
Definition ignore {A} (r : res A * TicTacToe) : res unit * TicTacToe :=
  match r with
  | (Ok _, s) => (Ok tt, s)
  | (IndexError, s) => (IndexError, s)
  | (OutOfFuel, s) => (OutOfFuel, s)
  end.

(** [ai_move_easy].  [pick] is the random draw behind
    [random.choice(empty_cells)], which subscripts the list at a
    position below its length. *)
Definition ai_move_easy (s : TicTacToe) (pick : nat) : res unit * TicTacToe :=
  let empty_cells := get_empty_cells s in
  match empty_cells with
  | [] => (Ok tt, s)
  | c0 :: _ =>
    let '(row, col) := nth (pick mod length empty_cells)%nat empty_cells c0 in
    ignore (make_move s (Z_of_idx row) (Z_of_idx col))
  end.

(** [ai_move_hard].  A [(row, col)] tuple is never empty, so
    [result['move']] is false only when it is [None]. *)
Definition ai_move_hard (s : TicTacToe) : res unit * TicTacToe :=
  match minimax s 0 true NegInf PosInf with
  | (Ok result, s1) =>
    match move result with
    | Some (Some (row, col)) => ignore (make_move s1 (Z_of_idx row) (Z_of_idx col))
    | _ => (Ok tt, s1)
    end
  | (IndexError, s1) => (IndexError, s1)
  | (OutOfFuel, s1) => (OutOfFuel, s1)
  end.

(** [ai_move_medium].  [coin] is the outcome of [random.random() < 0.7]. *)
Definition ai_move_medium (s : TicTacToe) (coin : bool) (pick : nat)
    : res unit * TicTacToe :=
  if coin then ai_move_hard s else ai_move_easy s pick.

(** [ai_move] (the console's half-second sleep left out). *)
Definition ai_move (s : TicTacToe) (coin : bool) (pick : nat)
    : res unit * TicTacToe :=
  match ai_difficulty s with
  | Easy => ai_move_easy s pick
  | Medium => ai_move_medium s coin pick
  | Hard => ai_move_hard s
  end.

(** ** The two front-ends *)

(** Console, [get_player_move] from the point where [row] and [col]
    have been parsed and made 0-based.  It returns [True] ("keep
    playing") on every path of that part. *)
Definition get_player_move (s : TicTacToe) (row col : Z) : res bool * TicTacToe :=
  if negb ((0 <=? row) && (row <? 3) && (0 <=? col) && (col <? 3)) then
    (Ok true, s)
  else
    match make_move s row col with
    | (Ok _, s') => (Ok true, s')
    | (e, s') => (e, s')
    end.

Definition SCREEN_WIDTH : Z := 600.
Definition SCREEN_HEIGHT : Z := 700.
Definition BOARD_SIZE : Z := 450.
Definition CELL_SIZE : Z := BOARD_SIZE / 3.

(** [self.board_rect] as (x, y, width, height). *)
Definition board_rect : Z * Z * Z * Z :=
  ((SCREEN_WIDTH - BOARD_SIZE) / 2, (SCREEN_HEIGHT - BOARD_SIZE) / 2,
   BOARD_SIZE, BOARD_SIZE).

(** The values of a C [int].  pygame takes the coordinates of a point
    into C [int]s before it tests them, so a Python [int] outside this
    range does not reach the test as it is; the mouse positions pygame
    reports are inside it. *)
Definition c_int (z : Z) : Prop := -2147483648 <= z <= 2147483647.

Definition int_coords (p : Z * Z) : Prop := c_int (fst p) /\ c_int (snd p).

(** pygame's [Rect.collidepoint], for a point with [int_coords]: the
    left and top edges are inside, the right and bottom edges are
    not. *)
Definition collidepoint (r : Z * Z * Z * Z) (p : Z * Z) : bool :=
  let '(rx, ry, w, h) := r in
  let '(x, y) := p in
  (rx <=? x) && (x <? rx + w) && (ry <=? y) && (y <? ry + h).

(** "Calculate which cell was clicked": the (row, col) that
    [handle_click] derives from the mouse position, with Python's
    flooring [//]. *)
Definition clicked_cell (mouse_pos : Z * Z) : Z * Z :=
  let '(x, y) := mouse_pos in
  let '(rx, ry, _, _) := board_rect in
  let col := (x - rx) / CELL_SIZE in
  let row := (y - ry) / CELL_SIZE in
  (row, col).

(** GUI, [handle_click(mouse_pos)]. *)
Definition handle_click (s : TicTacToe) (mouse_pos : Z * Z) : res bool * TicTacToe :=
  if game_over s then (Ok false, s)
  else if negb (collidepoint board_rect mouse_pos) then (Ok false, s)
  else
    let '(row, col) := clicked_cell mouse_pos in
    make_move s row col.

(** What both front-ends show: the game is over with a winner, over
    without one, or still running. *)
Inductive outcome : Type :=
| InProgress
| Won (m : mark)
| Drawn.

Definition query_outcome (s : TicTacToe) : outcome :=
  if game_over s then
    match winner s with
    | Some m => Won m
    | None => Drawn
    end
  else InProgress.

(** ** Reference search without pruning *)

(** The value of a node by plain minimax: the same terminal tests, the
    same depth cut-off and the same row-major order of the blank cells
    as [minimax], but every child is visited and no window is kept.
    It works on values: a child is the position after the placement,
    nothing is undone. *)
Fixpoint plain_loop (rec : TicTacToe -> option ext) (is_maximizing : bool)
    (s : TicTacToe) (cells : list (idx * idx)) : option ext :=
  match cells with
  | [] => Some (if is_maximizing then NegInf else PosInf)
  | (row, col) :: rest =>
    match rec (place s row col (if is_maximizing then MarkO else MarkX)),
          plain_loop rec is_maximizing s rest with
    | Some v, Some w => Some (if is_maximizing then ext_max v w else ext_min v w)
    | _, _ => None
    end
  end.

Fixpoint plain_minimax_fuel (fuel : nat) (depth : Z) (is_maximizing : bool)
    (s : TicTacToe) : option ext :=
  match fuel with
  | O => None
  | S fuel' =>
    match winner s with
    | Some MarkO => Some (Fin (10 - depth))
    | Some MarkX => Some (Fin (depth - 10))
    | None =>
      if is_board_full s then Some (Fin 0)
      else if max_depth (ai_difficulty s) <=? depth then Some (Fin 0)
      else
        let s1 :=
          set_current_player s (if is_maximizing then MarkO else MarkX) in
        plain_loop (plain_minimax_fuel fuel' (depth + 1) (negb is_maximizing))
                   is_maximizing s1 (get_empty_cells s1)
    end
  end.

Definition plain_minimax (s : TicTacToe) (depth : Z) (is_maximizing : bool)
    : option ext :=
  plain_minimax_fuel 10 depth is_maximizing s.

(** ** Reachable states *)

(** All the cells of the grid, rows first. *)
Definition cells_of (b : grid) : list cell := flat_map to_list3 (to_list3 b).

(** The number of cells that hold a mark. *)
Definition count_marks (b : grid) : Z :=
  Z.of_nat (length (filter (fun c => negb (cell_eqb c None)) (cells_of b))).

(** The states a game object can be in: created by [__init__], then any
    sequence of [reset_game], [make_move] at any two integers,
    [ai_move] under any random draws, and a new choice in the menu. *)
Inductive reachable : TicTacToe -> Prop :=
| reach_new : reachable new_game
| reach_reset s : reachable s -> reachable (reset_game s)
| reach_move s row col r s' :
    reachable s -> make_move s row col = (r, s') -> reachable s'
| reach_ai s coin pick r s' :
    reachable s -> ai_move s coin pick = (r, s') -> reachable s'
| reach_menu s e d : reachable s -> reachable (set_ai s e d).

(** ** A game against the Hard computer *)

(** The computer plays when it is enabled and ['O'] is to move. *)
Definition ai_turn (s : TicTacToe) : bool :=
  ai_enabled s && mark_eqb (current_player s) MarkO.

(** The game as chosen in the menu: "Human vs AI (Hard)". *)
Definition hard_game : TicTacToe := set_ai new_game true Hard.

(** One round of the console's main loop: after a finished game the
    board is reset for another one; otherwise the computer moves on its
    turn and the human enters a move on theirs. *)
Inductive play_step : TicTacToe -> TicTacToe -> Prop :=
| play_again s :
    game_over s = true -> play_step s (reset_game s)
| play_ai s coin pick r s' :
    game_over s = false -> ai_turn s = true ->
    ai_move s coin pick = (r, s') -> play_step s s'
| play_human s row col r s' :
    game_over s = false -> ai_turn s = false ->
    get_player_move s row col = (r, s') -> play_step s s'.

Inductive played : TicTacToe -> Prop :=
| played_start : played hard_game
| played_step s s' : played s -> play_step s s' -> played s'.

(** A decision procedure for "from [s] on, the human never wins":
    it follows the computer's reply and tries all nine cells for the
    human, for at most [fuel] moves. *)
Definition hard_config (s : TicTacToe) : bool :=
  ai_enabled s && match ai_difficulty s with Hard => true | _ => false end.

Definition lost (s : TicTacToe) : bool :=
  match winner s with Some MarkX => true | _ => false end.

Definition all_cells : list (Z * Z) := list_prod [0; 1; 2] [0; 1; 2].

Fixpoint safe (fuel : nat) (s : TicTacToe) : bool :=
  hard_config s && negb (lost s) &&
  (game_over s ||
   match fuel with
   | O => false
   | S n =>
     if ai_turn s then
       match ai_move_hard s with
       | (Ok _, s') => safe n s'
       | _ => false
       end
     else
       forallb
         (fun rc =>
            match make_move s (fst rc) (snd rc) with
            | (Ok true, s') => safe n s'
            | _ => true
            end)
         all_cells
   end).

(** ** Order on scores *)

Definition ext_lt (a b : ext) : Prop := ext_ltb a b = true.
Definition ext_le (a b : ext) : Prop := ext_ltb b a = false.

(** ** Consistency of a game object *)

(** What the flags of a game object say about its grid: the move count
    is the number of marks; while the game runs nobody has a line and
    no winner is recorded; once it is over, the recorded winner has a
    line, or nobody has one and the grid is full. *)
Definition consistent (s : TicTacToe) : Prop :=
  moves_count s = count_marks (board s)
  /\ (game_over s = false ->
      winner s = None /\ forall m, has_win (board s) (Some m) = false)
  /\ (game_over s = true ->
      match winner s with
      | Some m => has_win (board s) (Some m) = true
      | None =>
        count_marks (board s) = 9
        /\ forall m, has_win (board s) (Some m) = false
      end).

(** What a score [x] returned for the window ([alpha], [beta]) tells
    about the plain minimax value [v] of the node: at or below [alpha]
    it is an upper bound, at or above [beta] a lower bound, strictly
    inside the window it is the value. *)
Definition bounds (alpha beta x v : ext) : Prop :=
  (ext_le x alpha -> ext_le v x)
  /\ (ext_le beta x -> ext_le x v)
  /\ (ext_lt alpha x -> ext_lt x beta -> v = x).

(** The nested search [rec] and the reference [prec] agree on the
    children of [s] (the positions after player [p] has marked one of
    [cells]): called on a child with a proper window, [rec] returns,
    restores the child, and its score bounds the child's value. *)
Definition children_agree (rec : search) (prec : TicTacToe -> option ext)
    (s : TicTacToe) (depth : Z) (child_maximizing : bool) (p : mark)
    (cells : list (idx * idx)) : Prop :=
  forall row col alpha beta,
    In (row, col) cells -> ext_lt alpha beta ->
    exists r v,
      rec (place s row col p) (depth + 1) child_maximizing alpha beta
      = (Ok r, place s row col p)
      /\ prec (place s row col p) = Some v
      /\ bounds alpha beta (score r) v.

(** A search "restores" a set of positions when, called on any of them,
    it returns normally and leaves it as it found it. *)
Definition restores (rec : search) (P : TicTacToe -> Prop) : Prop :=
  forall s depth is_maximizing alpha beta,
    P s -> exists r, rec s depth is_maximizing alpha beta = (Ok r, s).

(** ** Positions used as examples *)

(** The scenario board [[X,X,' '],[O,O,' '],[' ',' ',' ']], X to move. *)
Definition x_to_win : TicTacToe :=
  mkGame ((Some MarkX, Some MarkX, None),
          (Some MarkO, Some MarkO, None),
          (None, None, None))
         MarkX false None 4 false Medium.

(** The position after X (0,0), O (1,0), X (0,1), O (1,1), X (0,2). *)
Definition x_has_won : TicTacToe :=
  snd (make_move (snd (make_move (snd (make_move (snd (make_move
    (snd (make_move new_game 0 0)) 1 0)) 0 1)) 1 1)) 0 2).

(** A Medium game with O to move, and the node the search visits after
    O (0,1), X (0,2), O (2,1): depth 3, O has the middle column. *)
Definition medium_root : TicTacToe :=
  mkGame ((Some MarkX, None, None),
          (None, Some MarkO, None),
          (None, None, Some MarkX))
         MarkO false None 3 true Medium.

Definition won_at_cutoff : TicTacToe :=
  place
    (set_current_player
       (place
          (set_current_player
             (place (set_current_player medium_root MarkO) I0 I1 MarkO)
             MarkX)
          I0 I2 MarkX)
       MarkO)
    I2 I1 MarkO.

(** The drawn board X O X / X O O / O X X. *)
Definition drawn_board : TicTacToe :=
  mkGame ((Some MarkX, Some MarkO, Some MarkX),
          (Some MarkX, Some MarkO, Some MarkO),
          (Some MarkO, Some MarkX, Some MarkX))
         MarkX true None 9 true Hard.

(** The position after the human's (0, 0) and the computer's reply. *)
Definition after_first_round : TicTacToe :=
  snd (ai_move (snd (get_player_move hard_game 0 0)) true 0).

(** ** Lines, positions and per-mark counts *)

(** The eight lines of the grid: three rows, three columns, the two
    diagonals. *)
Definition win_lines : list (list (idx * idx)) :=
  [ [(I0, I0); (I0, I1); (I0, I2)];
    [(I1, I0); (I1, I1); (I1, I2)];
    [(I2, I0); (I2, I1); (I2, I2)];
    [(I0, I0); (I1, I0); (I2, I0)];
    [(I0, I1); (I1, I1); (I2, I1)];
    [(I0, I2); (I1, I2); (I2, I2)];
    [(I0, I0); (I1, I1); (I2, I2)];
    [(I0, I2); (I1, I1); (I2, I0)] ].

(** The rank of a cell when the grid is read rows first. *)
Definition position (rc : idx * idx) : Z :=
  3 * Z_of_idx (fst rc) + Z_of_idx (snd rc).

(** The number of cells that hold the mark [m]. *)
Definition count_mark (b : grid) (m : mark) : Z := count (Some m) (cells_of b).

(** ** Orderly play *)

(** What alternating play adds to [consistent]: a running game has
    fewer than nine marks and X has as many marks as O, plus one when O
    is to move; in a finished game [current_player] is the player who
    moved last, so X has one mark more exactly when it is X, and a
    recorded winner is that player while the other mark has no line. *)
Definition orderly (s : TicTacToe) : Prop :=
  consistent s
  /\ (game_over s = false ->
      moves_count s < 9
      /\ count_mark (board s) MarkX
         = count_mark (board s) MarkO
           + (if mark_eqb (current_player s) MarkO then 1 else 0))
  /\ (game_over s = true ->
      count_mark (board s) MarkX
      = count_mark (board s) MarkO
        + (if mark_eqb (current_player s) MarkX then 1 else 0)
      /\ forall m, winner s = Some m ->
           m = current_player s
           /\ has_win (board s) (Some (other m)) = false).

(** ** Reference choice of a move *)

(** The move plain minimax makes: the children are valued by
    [plain_minimax_fuel], in row-major order, and a child takes over as
    the best only when its value is strictly better than the best so
    far, so among equally good moves the first one stays. *)
Fixpoint plain_choice_loop (prec : TicTacToe -> option ext)
    (is_maximizing : bool) (s : TicTacToe) (cells : list (idx * idx))
    (best_score : ext) (best_move : option (idx * idx))
    : option (ext * option (idx * idx)) :=
  match cells with
  | [] => Some (best_score, best_move)
  | (row, col) :: rest =>
    match prec (place s row col (if is_maximizing then MarkO else MarkX)) with
    | Some v =>
      if (if is_maximizing then ext_ltb best_score v else ext_ltb v best_score)
      then plain_choice_loop prec is_maximizing s rest v (Some (row, col))
      else plain_choice_loop prec is_maximizing s rest best_score best_move
    | None => None
    end
  end.

(** The whole result ([score] and [move]) of a search without
    pruning. *)
Definition plain_search (s : TicTacToe) (depth : Z) (is_maximizing : bool)
    : option search_result :=
  match winner s with
  | Some MarkO => Some (leaf (10 - depth))
  | Some MarkX => Some (leaf (depth - 10))
  | None =>
    if is_board_full s then Some (leaf 0)
    else if max_depth (ai_difficulty s) <=? depth then Some (leaf 0)
    else
      let s1 :=
        set_current_player s (if is_maximizing then MarkO else MarkX) in
      match plain_choice_loop
              (plain_minimax_fuel 9 (depth + 1) (negb is_maximizing))
              is_maximizing s1 (get_empty_cells s1)
              (if is_maximizing then NegInf else PosInf) None with
      | Some (best_score, best_move) =>
        Some (mkResult best_score (Some best_move))
      | None => None
      end
  end.

(** ** More positions used as examples *)

(** O to move with (0, 0) and (0, 1): the top row can be completed. *)
Definition o_to_win : TicTacToe :=
  snd (make_move (snd (make_move (snd (make_move (snd (make_move
    (snd (make_move (set_ai new_game true Hard) 1 1)) 0 0)) 2 2)) 0 1)) 1 0).

(** O to move after X (0, 0), O (1, 1), X (0, 1): X threatens (0, 2). *)
Definition o_must_block : TicTacToe :=
  snd (make_move (snd (make_move (snd (make_move
    (set_ai new_game true Medium) 0 0)) 1 1)) 0 1).

(** ** The GUI: drawn cells and the menu *)

(** [cell_rect] in [draw]: the square in which the mark of the cell
    (row, col) is drawn. *)
Definition cell_rect (row col : Z) : Z * Z * Z * Z :=
  let '(rx, ry, _, _) := board_rect in
  (rx + col * CELL_SIZE, ry + row * CELL_SIZE, CELL_SIZE, CELL_SIZE).

(** The pygame events the menu and the main loop tell apart, with the
    attribute each one is asked for. *)
Inductive event : Type :=
| QuitEvent
| KeyDown (key : Z)
| MouseButtonDown (button : Z)
| OtherEvent.

(** The dict [GameMenu.handle_events] returns: ["start_game"] with
    ["ai_enabled"] and, for a game against the computer, ["difficulty"];
    ["quit"]; ["none"]. *)
Inductive menu_action : Type :=
| StartGame (ai : bool) (level : option difficulty)
| QuitGame
| NoAction.

(** The rectangles of the five buttons made by [create_buttons]. *)
Definition button_width : Z := 250.
Definition button_height : Z := 50.
Definition center_x : Z := SCREEN_WIDTH / 2 - button_width / 2.

Definition human_vs_human_button : Z * Z * Z * Z :=
  (center_x, 150, button_width, button_height).
Definition human_vs_ai_easy_button : Z * Z * Z * Z :=
  (center_x, 220, button_width, button_height).
Definition human_vs_ai_medium_button : Z * Z * Z * Z :=
  (center_x, 290, button_width, button_height).
Definition human_vs_ai_hard_button : Z * Z * Z * Z :=
  (center_x, 360, button_width, button_height).
Definition quit_button : Z * Z * Z * Z :=
  (center_x, 430, button_width, button_height).

(** [Button.is_clicked] *)
Definition is_clicked (rect : Z * Z * Z * Z) (mouse_pos : Z * Z)
    (mouse_click : bool) : bool :=
  collidepoint rect mouse_pos && mouse_click.

(** The [if]/[elif] chain run for a left click: the action of the first
    button that is hit, [None] when the chain falls through. *)
Definition clicked_button (mouse_pos : Z * Z) : option menu_action :=
  if is_clicked human_vs_human_button mouse_pos true then
    Some (StartGame false None)
  else if is_clicked human_vs_ai_easy_button mouse_pos true then
    Some (StartGame true (Some Easy))
  else if is_clicked human_vs_ai_medium_button mouse_pos true then
    Some (StartGame true (Some Medium))
  else if is_clicked human_vs_ai_hard_button mouse_pos true then
    Some (StartGame true (Some Hard))
  else if is_clicked quit_button mouse_pos true then Some QuitGame
  else None.

(** [GameMenu.handle_events(events)]; [mouse_pos] is what
    [pygame.mouse.get_pos()] returned at the start of the call.  (The
    hover flags it sets on the buttons only matter for drawing.) *)
Fixpoint handle_events (events : list event) (mouse_pos : Z * Z)
    : menu_action :=
  match events with
  | [] => NoAction
  | MouseButtonDown 1 :: rest =>
    match clicked_button mouse_pos with
    | Some a => a
    | None => handle_events rest mouse_pos
    end
  | _ :: rest => handle_events rest mouse_pos
  end.

(** * Properties *)

(** ** The grid *)

Lemma nth3_upd3_same {A} (v : vec3 A) (i : idx) (x : A) :
  nth3 (upd3 v i x) i = x.
Proof. destruct v as [[a b] c], i; reflexivity. Qed.

Lemma nth3_upd3_other {A} (v : vec3 A) (i j : idx) (x : A) :
  i <> j -> nth3 (upd3 v i x) j = nth3 v j.
Proof. destruct v as [[a b] c], i, j; intros H; try reflexivity; now elim H. Qed.

Lemma upd3_upd3 {A} (v : vec3 A) (i : idx) (x y : A) :
  upd3 (upd3 v i x) i y = upd3 v i y.
Proof. destruct v as [[a b] c], i; reflexivity. Qed.

Lemma upd3_nth3 {A} (v : vec3 A) (i : idx) : upd3 v i (nth3 v i) = v.
Proof. destruct v as [[a b] c], i; reflexivity. Qed.

Lemma get_set_same (b : grid) (row col : idx) (x : cell) :
  get_cell (set_cell b row col x) row col = x.
Proof. unfold get_cell, set_cell. now rewrite !nth3_upd3_same. Qed.

Lemma set_set (b : grid) (row col : idx) (x y : cell) :
  set_cell (set_cell b row col x) row col y = set_cell b row col y.
Proof.
  unfold set_cell. now rewrite nth3_upd3_same, !upd3_upd3.
Qed.

Lemma set_get (b : grid) (row col : idx) :
  set_cell b row col (get_cell b row col) = b.
Proof. unfold set_cell, get_cell. now rewrite !upd3_nth3. Qed.

(** Blanking a cell that was blank before the placement gives the grid
    back. *)
Lemma set_blank_again (b : grid) (row col : idx) (x : cell) :
  get_cell b row col = None ->
  set_cell (set_cell b row col x) row col None = b.
Proof. intros H. rewrite set_set, <- H. apply set_get. Qed.

Lemma py_index_Z_of_idx (i : idx) : py_index (Z_of_idx i) = Some i.
Proof. destruct i; reflexivity. Qed.

Lemma py_index_in_range (i : Z) :
  0 <= i < 3 -> exists k, py_index i = Some k /\ Z_of_idx k = i.
Proof.
  intros H.
  assert (i = 0 \/ i = 1 \/ i = 2) as [-> | [-> | ->]] by lia;
    [exists I0 | exists I1 | exists I2]; split; reflexivity.
Qed.

(** ** The record *)

Lemma set_current_player_back (s : TicTacToe) (p : mark) :
  set_current_player (set_current_player s p) (current_player s) = s.
Proof. destruct s; reflexivity. Qed.

(** [get_empty_cells] lists exactly the blank cells. *)
Lemma in_get_empty_cells (s : TicTacToe) (row col : idx) :
  In (row, col) (get_empty_cells s) <-> get_cell (board s) row col = None.
Proof.
  unfold get_empty_cells. rewrite in_flat_map. split.
  - intros [i [_ H]]. rewrite in_flat_map in H. destruct H as [j [_ H]].
    destruct (get_cell (board s) i j) eqn:E; simpl in H; [contradiction |].
    destruct H as [H | []]. now injection H as <- <-.
  - intros H. exists row. split; [destruct row; simpl; auto |].
    rewrite in_flat_map. exists col. split; [destruct col; simpl; auto |].
    rewrite H. now left.
Qed.

Lemma get_empty_cells_board (s s' : TicTacToe) :
  board s = board s' -> get_empty_cells s = get_empty_cells s'.
Proof. unfold get_empty_cells. now intros ->. Qed.

Lemma board_place (s : TicTacToe) (row col : idx) (p : mark) :
  board (place s row col p) = set_cell (board s) row col (Some p).
Proof. unfold place. now destruct check_win. Qed.

(** Case analysis on every cell in the context: blank or marked. *)
Ltac destruct_cells :=
  repeat match goal with
         | c : cell |- _ => destruct c as [? |]
         end.

(** A placement on a blank cell leaves one blank cell fewer. *)
Lemma get_empty_cells_set (s s' : TicTacToe) (row col : idx) (p : mark) :
  get_cell (board s) row col = None ->
  board s' = set_cell (board s) row col (Some p) ->
  (length (get_empty_cells s') < length (get_empty_cells s))%nat.
Proof.
  intros H E. unfold get_empty_cells. rewrite E. clear E.
  destruct (board s) as [[[[a0 a1] a2] [[b0 b1] b2]] [[c0 c1] c2]].
  destruct row, col; cbn in H; subst; destruct_cells; cbn; lia.
Qed.

Lemma get_empty_cells_length (s : TicTacToe) :
  (length (get_empty_cells s) <= 9)%nat.
Proof.
  unfold get_empty_cells.
  destruct (board s) as [[[[a0 a1] a2] [[b0 b1] b2]] [[c0 c1] c2]].
  destruct a0, a1, a2, b0, b1, b2, c0, c1, c2; cbn; lia.
Qed.

(** Undoing a placement made on a blank cell of a position without a
    recorded winner gives the position back. *)
Lemma undo_place (s : TicTacToe) (row col : idx) (p : mark) :
  get_cell (board s) row col = None ->
  winner s = None ->
  undo (place s row col p) row col = s.
Proof.
  intros Hc Hw. unfold undo, place.
  destruct s as [b cp go w n e d]. cbn in Hc, Hw. subst w.
  destruct check_win; cbn; rewrite (set_blank_again _ _ _ _ Hc);
    unfold set_winner, set_moves_count, set_board; cbn; f_equal; lia.
Qed.

(** ** The search restores the position *)

Section Loops.

Variable rec : search.
Variable s : TicTacToe.
Hypothesis no_winner : winner s = None.

(** Both loops run over blank cells of [s] and, when the nested search
    restores the position after each placement, hand [s] back: on
    exhaustion of the cells as well as on a [break]. *)
Lemma max_loop_restores (cells : list (idx * idx)) :
  (forall row col, In (row, col) cells -> get_cell (board s) row col = None) ->
  restores rec (fun s' => exists row col,
                    In (row, col) cells /\ s' = place s row col MarkO) ->
  forall depth best_score best_move alpha beta,
  exists out,
    max_loop rec cells s depth best_score best_move alpha beta = (Ok out, s).
Proof.
  induction cells as [| [row col] rest IH]; intros Hblank Hrec depth bs bm a b.
  - eexists. reflexivity.
  - cbn [max_loop].
    destruct (Hrec (place s row col MarkO) (depth + 1) false a b) as [r ->].
    { exists row, col. split; [now left | reflexivity]. }
    rewrite undo_place by (auto using in_eq).
    destruct (ext_leb b _); [eexists; reflexivity |].
    apply IH.
    + intros; apply Hblank; now right.
    + intros s' d m a' b' (row' & col' & Hin & ->). apply Hrec.
      exists row', col'. split; [now right | reflexivity].
Qed.

Lemma min_loop_restores (cells : list (idx * idx)) :
  (forall row col, In (row, col) cells -> get_cell (board s) row col = None) ->
  restores rec (fun s' => exists row col,
                    In (row, col) cells /\ s' = place s row col MarkX) ->
  forall depth best_score best_move alpha beta,
  exists out,
    min_loop rec cells s depth best_score best_move alpha beta = (Ok out, s).
Proof.
  induction cells as [| [row col] rest IH]; intros Hblank Hrec depth bs bm a b.
  - eexists. reflexivity.
  - cbn [min_loop].
    destruct (Hrec (place s row col MarkX) (depth + 1) true a b) as [r ->].
    { exists row, col. split; [now left | reflexivity]. }
    rewrite undo_place by (auto using in_eq).
    destruct (ext_leb _ a); [eexists; reflexivity |].
    apply IH.
    + intros; apply Hblank; now right.
    + intros s' d m a' b' (row' & col' & Hin & ->). apply Hrec.
      exists row', col'. split; [now right | reflexivity].
Qed.

End Loops.

(** With more fuel than blank cells the search returns, and the
    position is the one it was called on. *)
Lemma minimax_fuel_enough (fuel : nat) :
  restores (minimax_fuel fuel)
           (fun s => (length (get_empty_cells s) < fuel)%nat).
Proof.
  induction fuel as [| fuel IH]; intros s depth is_max a b Hlen; [lia |].
  cbn [minimax_fuel].
  destruct (winner s) as [[|] |] eqn:Hw; try (eexists; reflexivity).
  destruct (is_board_full s); [eexists; reflexivity |].
  destruct (_ <=? depth); [eexists; reflexivity |].
  destruct is_max.
  - destruct (max_loop_restores (minimax_fuel fuel)
                (set_current_player s MarkO) Hw
                (get_empty_cells (set_current_player s MarkO)))
      with (depth := depth) (best_score := NegInf)
           (best_move := @None (idx * idx)) (alpha := a) (beta := b)
      as [[bs bm] ->].
    + intros row col. apply in_get_empty_cells.
    + intros s' d m a' b' (row & col & Hin & ->). apply IH.
      apply in_get_empty_cells in Hin.
      pose proof (get_empty_cells_set _ _ row col MarkO Hin
                    (board_place _ row col MarkO)) as Hlt.
      rewrite (get_empty_cells_board (set_current_player s MarkO) s eq_refl)
        in Hlt.
      lia.
    + rewrite set_current_player_back. eexists. reflexivity.
  - destruct (min_loop_restores (minimax_fuel fuel)
                (set_current_player s MarkX) Hw
                (get_empty_cells (set_current_player s MarkX)))
      with (depth := depth) (best_score := PosInf)
           (best_move := @None (idx * idx)) (alpha := a) (beta := b)
      as [[bs bm] ->].
    + intros row col. apply in_get_empty_cells.
    + intros s' d m a' b' (row & col & Hin & ->). apply IH.
      apply in_get_empty_cells in Hin.
      pose proof (get_empty_cells_set _ _ row col MarkX Hin
                    (board_place _ row col MarkX)) as Hlt.
      rewrite (get_empty_cells_board (set_current_player s MarkX) s eq_refl)
        in Hlt.
      lia.
    + rewrite set_current_player_back. eexists. reflexivity.
Qed.

Lemma minimax_restores (s : TicTacToe) (depth : Z) (is_maximizing : bool)
    (alpha beta : ext) :
  exists r, minimax s depth is_maximizing alpha beta = (Ok r, s).
Proof.
  apply minimax_fuel_enough.
  pose proof (get_empty_cells_length s). lia.
Qed.

(** C2.  For every position, depth, side and window, [minimax] returns
    normally and the game object it leaves is the one it was given:
    grid, move count, turn marker, winner and game-over flag are all as
    before the call. *)
Theorem minimax_leaves_board_as_found
    (s : TicTacToe) (depth : Z) (is_maximizing : bool) (alpha beta : ext) :
  exists r s',
    minimax s depth is_maximizing alpha beta = (Ok r, s')
    /\ board s' = board s
    /\ moves_count s' = moves_count s
    /\ current_player s' = current_player s
    /\ winner s' = winner s
    /\ game_over s' = game_over s
    /\ s' = s.
Proof.
  destruct (minimax_restores s depth is_maximizing alpha beta) as [r H].
  exists r, s. rewrite H. repeat split.
Qed.

(** ** Placing a mark *)

(** A call of [make_move] that does not return [True] has assigned
    nothing. *)
Lemma make_move_rejected (s : TicTacToe) (row col : Z) (r : res bool)
    (s' : TicTacToe) :
  make_move s row col = (r, s') -> r <> Ok true -> s' = s.
Proof.
  unfold make_move.
  destruct (game_over s); [intros [= <- <-]; reflexivity |].
  destruct (py_index row); [| intros [= <- <-]; reflexivity].
  destruct (py_index col); [| intros [= <- <-]; reflexivity].
  destruct (get_cell _ _ _); [intros [= <- <-]; reflexivity |].
  destruct (check_win _); [intros [= <- <-] H; now elim H |].
  destruct (_ =? 9); intros [= <- <-] H; now elim H.
Qed.

(** C5.  When the game is over (won or drawn), whatever the arguments,
    and when the cell at an in-range (row, col) holds a mark,
    [make_move] returns [False] and the game object is unchanged. *)
Theorem make_move_terminal_or_occupied (s : TicTacToe) (row col : Z) :
  (query_outcome s <> InProgress
   \/ exists r c, row = Z_of_idx r /\ col = Z_of_idx c
                  /\ get_cell (board s) r c <> None) ->
  make_move s row col = (Ok false, s).
Proof.
  unfold make_move, query_outcome.
  destruct (game_over s); [reflexivity |].
  intros [H | (r & c & -> & -> & H)]; [now elim H |].
  rewrite !py_index_Z_of_idx.
  destruct (get_cell (board s) r c); [reflexivity | now elim H].
Qed.

Lemma make_move_terminal_or_occupied_witness :
  make_move x_to_win 1 1 = (Ok false, x_to_win).
Proof.
  apply make_move_terminal_or_occupied.
  right. exists I1, I1. repeat split. discriminate.
Defined.

(** C4, as stated, fails: X completes the top row at (0, 2), the
    placement succeeds, the game is won, and it is still X in
    [current_player]. *)
Lemma turn_kept_on_winning_move :
  fst (make_move x_to_win 0 2) = Ok true
  /\ query_outcome (snd (make_move x_to_win 0 2)) = Won MarkX
  /\ current_player (snd (make_move x_to_win 0 2))
     <> other (current_player x_to_win).
Proof. repeat split. discriminate. Qed.

(** C4, amended.  After a successful placement the turn marker has
    toggled exactly when the game goes on; a placement that wins or
    fills the board leaves it on the player who moved. *)
Theorem make_move_turn (s : TicTacToe) (row col : Z) (s' : TicTacToe) :
  make_move s row col = (Ok true, s') ->
  (query_outcome s' = InProgress ->
   current_player s' = other (current_player s))
  /\ (query_outcome s' <> InProgress ->
      current_player s' = current_player s).
Proof.
  unfold make_move, query_outcome.
  destruct (game_over s) eqn:Hg; [discriminate |].
  destruct (py_index row); [| discriminate].
  destruct (py_index col); [| discriminate].
  destruct (get_cell _ _ _); [discriminate |].
  destruct (check_win _).
  - intros [= <-]. cbn. split; [discriminate | reflexivity].
  - destruct (_ =? 9); intros [= <-]; cbn.
    + split; [destruct (winner s); discriminate | reflexivity].
    + rewrite Hg. split; [reflexivity | intros H; now elim H].
Qed.

Lemma make_move_turn_witness :
  (query_outcome (snd (make_move new_game 1 1)) = InProgress ->
   current_player (snd (make_move new_game 1 1))
   = other (current_player new_game))
  /\ (query_outcome (snd (make_move new_game 1 1)) <> InProgress ->
      current_player (snd (make_move new_game 1 1))
      = current_player new_game).
Proof. apply (make_move_turn new_game 1 1). reflexivity. Defined.

(** C1, as stated, fails for [make_move], which checks no range: -1
    counts from the end of the list, so on a new board the move at
    (-1, -1) succeeds and marks the last cell; 3 raises [IndexError]
    instead of returning [False]. *)
Lemma make_move_out_of_range :
  fst (make_move new_game (-1) (-1)) = Ok true
  /\ get_cell (board (snd (make_move new_game (-1) (-1)))) I2 I2 = Some MarkX
  /\ fst (make_move new_game 3 0) = IndexError.
Proof. repeat split. Qed.

Lemma clicked_cell_in_range (x y : Z) :
  let '(row, col) := clicked_cell (x, y) in
  collidepoint board_rect (x, y) = true <->
  (0 <= row < 3 /\ 0 <= col < 3).
Proof.
  unfold clicked_cell, collidepoint, board_rect, CELL_SIZE, BOARD_SIZE,
    SCREEN_WIDTH, SCREEN_HEIGHT.
  change ((600 - 450) / 2) with 75. change ((700 - 450) / 2) with 125.
  change (450 / 3) with 150.
  rewrite !andb_true_iff, !Z.leb_le, !Z.ltb_lt.
  pose proof (Z.div_mod (x - 75) 150 ltac:(lia)).
  pose proof (Z.mod_pos_bound (x - 75) 150 ltac:(lia)).
  pose proof (Z.div_mod (y - 125) 150 ltac:(lia)).
  pose proof (Z.mod_pos_bound (y - 125) 150 ltac:(lia)).
  lia.
Qed.

(** C1, amended.  The range check is made by the callers of
    [make_move], before it is called.  For a row or column outside
    0..2: the console's [get_player_move] returns without an exception
    and leaves the game object unchanged; the GUI's [handle_click], for
    every click at coordinates that fit a C [int] and whose cell is that
    (row, col), returns [False] and leaves the game object unchanged. *)
Theorem out_of_range_rejected_by_callers (s : TicTacToe) (row col : Z) :
  ~ (0 <= row < 3 /\ 0 <= col < 3) ->
  (exists b, get_player_move s row col = (Ok b, s))
  /\ forall mouse_pos,
       int_coords mouse_pos ->
       clicked_cell mouse_pos = (row, col) ->
       handle_click s mouse_pos = (Ok false, s).
Proof.
  intros H. split.
  - exists true. unfold get_player_move.
    destruct (negb _) eqn:E; [reflexivity |].
    apply negb_false_iff in E.
    rewrite !andb_true_iff, !Z.leb_le, !Z.ltb_lt in E. lia.
  - intros [x y] _ Hc. unfold handle_click.
    destruct (game_over s); [reflexivity |].
    destruct (collidepoint board_rect (x, y)) eqn:E; [| reflexivity].
    pose proof (clicked_cell_in_range x y) as R. rewrite Hc in R.
    apply R in E. contradiction.
Qed.

Lemma out_of_range_rejected_by_callers_witness :
  (exists b, get_player_move new_game 3 0 = (Ok b, new_game))
  /\ handle_click new_game (100, 600) = (Ok false, new_game).
Proof.
  destruct (out_of_range_rejected_by_callers new_game 3 0 ltac:(lia))
    as [H1 H2].
  split; [exact H1 |].
  apply H2; [split; cbn; unfold c_int; lia | reflexivity].
Defined.

(** ** Lines and counts *)

Lemma count3 (p x y z : cell) :
  (count p [x; y; z] =? 3) = cell_eqb p x && cell_eqb p y && cell_eqb p z.
Proof.
  unfold count. cbn [filter].
  destruct (cell_eqb p x), (cell_eqb p y), (cell_eqb p z); reflexivity.
Qed.

Lemma chain3 (p x y z : cell) :
  cell_eqb x y && cell_eqb y z && cell_eqb z p
  = cell_eqb p x && cell_eqb p y && cell_eqb p z.
Proof. destruct p as [[] |], x as [[] |], y as [[] |], z as [[] |]; reflexivity. Qed.

Lemma mark_eqb_neq (p q : mark) : q <> p -> mark_eqb q p = false.
Proof. destruct p, q; intros H; try reflexivity; now elim H. Qed.

(** [has_win] as a formula over "this cell holds [p]". *)
Ltac win_formula :=
  unfold has_win;
  cbn [set_cell get_cell nth3 upd3 to_list3 existsb map range3];
  rewrite ?count3, ?chain3.

(** A mark placed on a blank cell completes no line of the other mark
    and breaks none. *)
Lemma has_win_other (b : grid) (row col : idx) (p q : mark) :
  get_cell b row col = None -> q <> p ->
  has_win (set_cell b row col (Some p)) (Some q) = has_win b (Some q).
Proof.
  intros H Hq. apply mark_eqb_neq in Hq.
  destruct b as [[[[a0 a1] a2] [[b0 b1] b2]] [[c0 c1] c2]].
  destruct row, col; cbn in H; subst; win_formula;
    cbn [cell_eqb]; rewrite Hq; reflexivity.
Qed.

Lemma count_marks_set (b : grid) (row col : idx) (p : mark) :
  get_cell b row col = None ->
  count_marks (set_cell b row col (Some p)) = count_marks b + 1.
Proof.
  intros H. unfold count_marks, cells_of.
  destruct b as [[[[a0 a1] a2] [[b0 b1] b2]] [[c0 c1] c2]].
  destruct row, col; cbn in H; subst; destruct_cells; cbn; lia.
Qed.

Lemma count_marks_full (s : TicTacToe) :
  count_marks (board s) = 9 -> get_empty_cells s = [].
Proof.
  unfold count_marks, cells_of, get_empty_cells.
  destruct (board s) as [[[[a0 a1] a2] [[b0 b1] b2]] [[c0 c1] c2]].
  destruct_cells; cbn; intros H; try reflexivity; lia.
Qed.

(** ** Consistency is kept by every operation *)

Lemma consistent_new : consistent new_game.
Proof.
  split; [reflexivity |]. split; [| discriminate].
  intros _. split; [reflexivity | intros []; reflexivity].
Qed.

Lemma consistent_reset (s : TicTacToe) : consistent (reset_game s).
Proof.
  split; [reflexivity |]. split; [| discriminate].
  intros _. split; [reflexivity | intros []; reflexivity].
Qed.

Lemma consistent_set_ai (s : TicTacToe) (e : bool) (d : difficulty) :
  consistent s -> consistent (set_ai s e d).
Proof. intros H. exact H. Qed.

Lemma consistent_make_move (s : TicTacToe) (row col : Z) (r : res bool)
    (s' : TicTacToe) :
  consistent s -> make_move s row col = (r, s') -> consistent s'.
Proof.
  intros (Hn & Hrun & Hover). unfold make_move.
  destruct (game_over s) eqn:Hg.
  { intros [= <- <-]. unfold consistent. now rewrite Hg. }
  destruct (py_index row) as [i |].
  2: { intros [= <- <-]. unfold consistent. now rewrite Hg. }
  destruct (py_index col) as [j |].
  2: { intros [= <- <-]. unfold consistent. now rewrite Hg. }
  destruct (get_cell (board s) i j) eqn:Hc.
  { intros [= <- <-]. unfold consistent. now rewrite Hg. }
  destruct (Hrun eq_refl) as [Hw Hnone].
  assert (Hq : forall m, m <> current_player s ->
             has_win (set_cell (board s) i j (Some (current_player s))) (Some m)
             = false).
  { intros m Hm. rewrite has_win_other by assumption. apply Hnone. }
  cbv zeta. unfold check_win. cbn [board current_player moves_count
    set_board set_moves_count].
  destruct (has_win _ (Some (current_player s))) eqn:Hwin.
  - intros [= <- <-]. unfold consistent. cbn.
    rewrite count_marks_set by assumption.
    split; [lia |]. split; [discriminate | intros _; exact Hwin].
  - destruct (moves_count s + 1 =? 9) eqn:H9; intros [= <- <-];
      unfold consistent; cbn; rewrite count_marks_set by assumption;
      rewrite ?Hw, ?Hg.
    + apply Z.eqb_eq in H9.
      split; [lia |]. split; [discriminate |]. intros _. split; [lia |].
      intros m. destruct (mark_eqb m (current_player s)) eqn:E.
      * destruct m, (current_player s); try discriminate; exact Hwin.
      * apply Hq. intros ->. destruct (current_player s); discriminate.
    + split; [lia |]. split; [| discriminate]. intros _.
      split; [reflexivity |].
      intros m. destruct (mark_eqb m (current_player s)) eqn:E.
      * destruct m, (current_player s); try discriminate; exact Hwin.
      * apply Hq. intros ->. destruct (current_player s); discriminate.
Qed.

(** A computer move is a no-op or one call of [make_move]: the search
    before it changes nothing. *)
Lemma ai_move_is_make_move (s : TicTacToe) (coin : bool) (pick : nat)
    (r : res unit) (s' : TicTacToe) :
  ai_move s coin pick = (r, s') ->
  s' = s \/ exists row col r', make_move s row col = (r', s').
Proof.
  assert (Hignore : forall row col,
             ignore (make_move s row col) = (r, s') ->
             exists r', make_move s row col = (r', s')).
  { intros row col. destruct (make_move s row col) as [[b | |] s1];
      cbn; intros [= <- <-]; eexists; reflexivity. }
  assert (Heasy : ai_move_easy s pick = (r, s') ->
                  s' = s \/ exists row col r', make_move s row col = (r', s')).
  { unfold ai_move_easy. destruct (get_empty_cells s) as [| c0 l] eqn:E.
    - intros [= <- <-]. now left.
    - destruct (nth _ _ _) as [i j]. intros H. right.
      exists (Z_of_idx i), (Z_of_idx j). now apply Hignore. }
  assert (Hhard : ai_move_hard s = (r, s') ->
                  s' = s \/ exists row col r', make_move s row col = (r', s')).
  { unfold ai_move_hard.
    destruct (minimax_restores s 0 true NegInf PosInf) as [res0 ->].
    destruct (move res0) as [[[i j] |] |].
    - intros H. right. exists (Z_of_idx i), (Z_of_idx j). now apply Hignore.
    - intros [= <- <-]. now left.
    - intros [= <- <-]. now left. }
  unfold ai_move, ai_move_medium.
  destruct (ai_difficulty s); [exact Heasy | | exact Hhard].
  destruct coin; [exact Hhard | exact Heasy].
Qed.

Lemma reachable_consistent (s : TicTacToe) : reachable s -> consistent s.
Proof.
  induction 1 as [| s _ IH | s row col r s' _ IH Hm
                  | s coin pick r s' _ IH Ha | s e d _ IH].
  - apply consistent_new.
  - apply consistent_reset.
  - exact (consistent_make_move _ _ _ _ _ IH Hm).
  - destruct (ai_move_is_make_move _ _ _ _ _ Ha)
      as [-> | (row & col & r' & Hm)]; [exact IH |].
    exact (consistent_make_move _ _ _ _ _ IH Hm).
  - now apply consistent_set_ai.
Qed.

Lemma reachable_x_has_won : reachable x_has_won.
Proof.
  unfold x_has_won.
  repeat (eapply reach_move; [| apply surjective_pairing]).
  apply reach_new.
Qed.

(** C6.  In every state reached from a new game by [make_move],
    [reset_game], [ai_move] and menu choices, in any order and with any
    arguments, the move count is the number of marked cells. *)
Theorem moves_count_is_number_of_marks (s : TicTacToe) :
  reachable s -> moves_count s = count_marks (board s).
Proof. intros H. apply (reachable_consistent s H). Qed.

Lemma moves_count_is_number_of_marks_witness :
  moves_count x_has_won = count_marks (board x_has_won).
Proof.
  apply moves_count_is_number_of_marks. apply reachable_x_has_won.
Defined.

(** C7.  In every reachable state: if the outcome is "won by [m]" then
    [m] has a full line on the grid; if it is a draw then the grid has
    no blank cell (all nine are marked) and neither mark has a line. *)
Theorem outcome_agrees_with_grid (s : TicTacToe) :
  reachable s ->
  (forall m, query_outcome s = Won m -> has_win (board s) (Some m) = true)
  /\ (query_outcome s = Drawn ->
      get_empty_cells s = []
      /\ count_marks (board s) = 9
      /\ forall m, has_win (board s) (Some m) = false).
Proof.
  intros H. destruct (reachable_consistent s H) as (_ & _ & Hover).
  unfold query_outcome. destruct (game_over s).
  - specialize (Hover eq_refl). destruct (winner s) as [w |].
    + split; [| discriminate]. now intros m [= <-].
    + split; [discriminate |]. intros _. destruct Hover as [H9 Hno].
      split; [| split]; auto using count_marks_full.
  - split; [discriminate | discriminate].
Qed.

Lemma outcome_agrees_with_grid_witness :
  (forall m, query_outcome x_has_won = Won m ->
             has_win (board x_has_won) (Some m) = true)
  /\ (query_outcome x_has_won = Drawn ->
      get_empty_cells x_has_won = []
      /\ count_marks (board x_has_won) = 9
      /\ forall m, has_win (board x_has_won) (Some m) = false).
Proof.
  apply outcome_agrees_with_grid. apply reachable_x_has_won.
Defined.

(** ** Scores at the leaves of the search *)

(** The order of the tests at work: this node is at the maximum depth of
    its tier and O has just won there; the recorded win is tested first,
    so it scores 10 - 3 = 7. *)
Example cutoff_node_scores_win :
  winner won_at_cutoff = Some MarkO
  /\ max_depth (ai_difficulty won_at_cutoff) = 3
  /\ minimax won_at_cutoff 3 false NegInf PosInf
     = (Ok (leaf 7), won_at_cutoff)
  /\ score (leaf 7) <> Fin 0.
Proof. repeat split. discriminate. Qed.

(** C8.  At every call of the search (any fuel that allows the call at
    all, [S fuel]), in the order of the claim: a recorded win of O
    scores 10 - depth, a recorded win of X scores depth - 10; with no
    recorded winner a full board scores 0; and with no recorded winner
    and a board that is not full, a depth that has reached the tier's
    maximum (Easy 1, Medium 3, Hard 9) scores 0.  None of the four makes
    a nested call: one unit of fuel is enough. *)
Theorem minimax_leaf_scores (fuel : nat) (s : TicTacToe) (depth : Z)
    (is_maximizing : bool) (alpha beta : ext) :
  (winner s = Some MarkO ->
   minimax_fuel (S fuel) s depth is_maximizing alpha beta
   = (Ok (leaf (10 - depth)), s))
  /\ (winner s = Some MarkX ->
      minimax_fuel (S fuel) s depth is_maximizing alpha beta
      = (Ok (leaf (depth - 10)), s))
  /\ (winner s = None -> is_board_full s = true ->
      minimax_fuel (S fuel) s depth is_maximizing alpha beta
      = (Ok (leaf 0), s))
  /\ (winner s = None -> is_board_full s = false ->
      max_depth (ai_difficulty s) <= depth ->
      minimax_fuel (S fuel) s depth is_maximizing alpha beta
      = (Ok (leaf 0), s))
  /\ max_depth Easy = 1 /\ max_depth Medium = 3 /\ max_depth Hard = 9.
Proof.
  cbn [minimax_fuel]. repeat split.
  - now intros ->.
  - now intros ->.
  - now intros -> ->.
  - intros -> -> H. apply Z.leb_le in H. now rewrite H.
Qed.

Lemma minimax_leaf_scores_witness :
  minimax_fuel 1 won_at_cutoff 3 false NegInf PosInf
  = (Ok (leaf (10 - 3)), won_at_cutoff)
  /\ minimax_fuel 1 medium_root 3 true NegInf PosInf
     = (Ok (leaf 0), medium_root).
Proof.
  split.
  - apply (minimax_leaf_scores 0 won_at_cutoff 3 false NegInf PosInf).
    reflexivity.
  - apply (minimax_leaf_scores 0 medium_root 3 true NegInf PosInf);
      [reflexivity | reflexivity | cbn; lia].
Defined.

(** ** A computer move on a full board *)

(** C10.  When [get_empty_cells] is empty, [ai_move] at any difficulty
    and under any random draws returns normally (no exception), makes
    no move and leaves the game object as it was. *)
Theorem ai_move_on_full_board (s : TicTacToe) (coin : bool) (pick : nat) :
  get_empty_cells s = [] -> ai_move s coin pick = (Ok tt, s).
Proof.
  intros H.
  assert (Heasy : ai_move_easy s pick = (Ok tt, s)).
  { unfold ai_move_easy. now rewrite H. }
  assert (Hhard : ai_move_hard s = (Ok tt, s)).
  { unfold ai_move_hard, minimax. cbn [minimax_fuel].
    destruct (winner s) as [[|] |]; try reflexivity.
    destruct (is_board_full s); [reflexivity |].
    destruct (_ <=? 0); [reflexivity |].
    rewrite (get_empty_cells_board (set_current_player s MarkO) s eq_refl), H.
    cbn. now rewrite set_current_player_back. }
  unfold ai_move, ai_move_medium.
  destruct (ai_difficulty s); [exact Heasy | | exact Hhard].
  destruct coin; [exact Hhard | exact Heasy].
Qed.

Lemma ai_move_on_full_board_witness :
  ai_move drawn_board true 0 = (Ok tt, drawn_board).
Proof. apply ai_move_on_full_board. reflexivity. Defined.

(** ** The Hard computer never loses *)

Lemma safe_hard_game : safe 9 hard_game = true.
Proof. vm_compute. reflexivity. Qed.

Lemma safe_config (n : nat) (s : TicTacToe) :
  safe n s = true -> ai_enabled s = true /\ ai_difficulty s = Hard.
Proof.
  destruct n; cbn [safe]; unfold hard_config;
    rewrite !andb_true_iff; intros [[[He Hd] _] _];
    (split; [exact He | destruct (ai_difficulty s); congruence]).
Qed.

Lemma safe_not_lost (n : nat) (s : TicTacToe) :
  safe n s = true -> winner s <> Some MarkX.
Proof.
  destruct n; cbn [safe]; unfold lost;
    rewrite !andb_true_iff, negb_true_iff; intros [[_ Hl] _];
    destruct (winner s) as [[|] |]; congruence.
Qed.

Lemma in_all_cells (row col : Z) :
  0 <= row < 3 -> 0 <= col < 3 -> In (row, col) all_cells.
Proof.
  intros Hr Hc. unfold all_cells. apply in_prod.
  - assert (row = 0 \/ row = 1 \/ row = 2) as [-> | [-> | ->]] by lia;
      cbn; auto.
  - assert (col = 0 \/ col = 1 \/ col = 2) as [-> | [-> | ->]] by lia;
      cbn; auto.
Qed.

(** The checker is sound: what it accepts stays accepted along every
    round of play. *)
Lemma safe_play_step (n : nat) (s s' : TicTacToe) :
  safe n s = true -> play_step s s' -> exists n', safe n' s' = true.
Proof.
  intros Hs Hstep. destruct (safe_config n s Hs) as [He Hd].
  destruct Hstep as [s Hg | s coin pick r s' Hg Ht Ha
                     | s row col r s' Hg Ht Hm].
  - exists 9%nat. unfold reset_game. rewrite He, Hd. apply safe_hard_game.
  - unfold ai_move in Ha. rewrite Hd in Ha.
    destruct n as [| n]; cbn [safe] in Hs; rewrite ?Hg, ?Ht in Hs;
      rewrite !andb_true_iff in Hs; destruct Hs as [_ Hs];
      [discriminate |].
    cbn [orb] in Hs. rewrite Ha in Hs. destruct r; try discriminate.
    now exists n.
  - assert (Hcase : s' = s
                    \/ (make_move s row col = (Ok true, s')
                        /\ 0 <= row < 3 /\ 0 <= col < 3)).
    { unfold get_player_move in Hm.
      destruct (negb _) eqn:Hrange; [injection Hm as <- <-; now left |].
      apply negb_false_iff in Hrange.
      rewrite !andb_true_iff, !Z.leb_le, !Z.ltb_lt in Hrange.
      destruct (make_move s row col) as [r0 s0] eqn:Hmm.
      assert (s0 = s') as -> by (destruct r0; now injection Hm).
      destruct r0 as [[|] | |];
        try (left; apply (make_move_rejected _ _ _ _ _ Hmm); discriminate).
      right. split; [reflexivity | lia]. }
    destruct Hcase as [-> | (Hmm & Hr & Hc)]; [now exists n |].
    destruct n as [| n]; cbn [safe] in Hs; rewrite ?Hg, ?Ht in Hs;
      rewrite !andb_true_iff in Hs; destruct Hs as [_ Hs];
      [discriminate |].
    cbn [orb] in Hs. rewrite forallb_forall in Hs.
    specialize (Hs (row, col) (in_all_cells row col Hr Hc)).
    cbn [fst snd] in Hs. rewrite Hmm in Hs. now exists n.
Qed.

Lemma played_safe (s : TicTacToe) : played s -> exists n, safe n s = true.
Proof.
  induction 1 as [| s s' _ [n IH] Hstep].
  - exists 9%nat. apply safe_hard_game.
  - exact (safe_play_step n s s' IH Hstep).
Qed.

Lemma played_after_first_round : played after_first_round.
Proof.
  eapply played_step.
  - eapply played_step; [apply played_start |].
    eapply (play_human hard_game 0 0); [reflexivity | reflexivity |].
    apply surjective_pairing.
  - eapply (play_ai _ true 0%nat); [reflexivity | reflexivity |].
    apply surjective_pairing.
Qed.

(** C3.  In a game against the Hard computer, started from the empty
    board, with the human moving first as X and the computer answering
    every move through [ai_move] (games played again after a reset
    included): whatever cells the human picks, X is never the recorded
    winner, and a finished game is won by O or drawn. *)
Theorem hard_computer_never_loses (s : TicTacToe) :
  played s ->
  winner s <> Some MarkX
  /\ (game_over s = true ->
      query_outcome s = Won MarkO \/ query_outcome s = Drawn).
Proof.
  intros H. destruct (played_safe s H) as [n Hn].
  pose proof (safe_not_lost n s Hn) as Hw. split; [exact Hw |].
  unfold query_outcome. intros ->.
  destruct (winner s) as [[|] |]; [now elim Hw | now left | now right].
Qed.

Lemma hard_computer_never_loses_witness :
  winner after_first_round <> Some MarkX
  /\ (game_over after_first_round = true ->
      query_outcome after_first_round = Won MarkO
      \/ query_outcome after_first_round = Drawn).
Proof.
  apply hard_computer_never_loses. apply played_after_first_round.
Defined.

(** ** Scores are totally ordered *)

Module ExtOrder.

Definition t : Type := ext.
Definition eq : t -> t -> Prop := @Logic.eq ext.
Definition lt : t -> t -> Prop := ext_lt.
Definition le : t -> t -> Prop := ext_le.

Lemma eq_equiv : Equivalence eq.
Proof. unfold eq. split; congruence. Qed.

Lemma lt_strorder : StrictOrder lt.
Proof.
  split.
  - intros [| x |]; unfold complement, lt, ext_lt; cbn; try discriminate.
    rewrite Z.ltb_irrefl. discriminate.
  - intros [| x |] [| y |] [| z |]; unfold lt, ext_lt; cbn; try congruence.
    rewrite !Z.ltb_lt. lia.
Qed.

Lemma lt_compat : Proper (eq ==> eq ==> iff) lt.
Proof. unfold eq. intros a b -> c d ->. reflexivity. Qed.

Lemma le_lteq (x y : t) : le x y <-> lt x y \/ eq x y.
Proof.
  destruct x as [| x |], y as [| y |]; unfold le, lt, eq, ext_le, ext_lt; cbn;
    try (split; [ intros; (left; reflexivity) || (right; reflexivity)
                          || discriminate
                | intros [H | H]; congruence ]).
  rewrite Z.ltb_ge, Z.ltb_lt. split.
  - intros H. destruct (Z.eq_dec x y); [right; congruence | left; lia].
  - intros [H | H]; [lia | injection H; lia].
Qed.

Lemma lt_total (x y : t) : lt x y \/ eq x y \/ lt y x.
Proof.
  destruct x as [| x |], y as [| y |]; unfold lt, eq, ext_lt; cbn; auto.
  rewrite !Z.ltb_lt. destruct (Z.lt_trichotomy x y) as [H | [H | H]]; auto.
  right; left; congruence.
Qed.

End ExtOrder.

Module ExtOrderTac := MakeOrderTac ExtOrder ExtOrder.

(** Decides goals about the order of scores from the comparisons in the
    context, after the tests of the code have been case-split. *)
Ltac ext_order :=
  repeat match goal with
  | H : ext_ltb ?a ?b = true |- _ => change (ExtOrder.lt a b) in H
  | H : ext_ltb ?a ?b = false |- _ => change (ExtOrder.le b a) in H
  | H : ext_lt ?a ?b |- _ => change (ExtOrder.lt a b) in H
  | H : ext_le ?a ?b |- _ => change (ExtOrder.le a b) in H
  | H : @Logic.eq ext ?a ?b |- _ => change (ExtOrder.eq a b) in H
  | |- ext_lt ?a ?b => change (ExtOrder.lt a b)
  | |- ext_le ?a ?b => change (ExtOrder.le a b)
  | |- ext_ltb ?a ?b = true => change (ExtOrder.lt a b)
  | |- ext_ltb ?a ?b = false => change (ExtOrder.le b a)
  | |- @Logic.eq ext ?a ?b => change (ExtOrder.eq a b)
  end;
  ExtOrderTac.order.

Lemma NegInf_le (x : ext) : ext_le NegInf x.
Proof. destruct x; reflexivity. Qed.

Lemma le_PosInf (x : ext) : ext_le x PosInf.
Proof. destruct x; reflexivity. Qed.

Lemma ext_leb_true (a b : ext) : ext_leb a b = true -> ext_le a b.
Proof. unfold ext_leb, ext_le. now rewrite negb_true_iff. Qed.

Lemma ext_leb_false (a b : ext) : ext_leb a b = false -> ext_lt b a.
Proof. unfold ext_leb, ext_lt. now rewrite negb_false_iff. Qed.

Lemma bounds_exact (alpha beta x : ext) : bounds alpha beta x x.
Proof. repeat split; intros; ext_order. Qed.

(** With the full window the score is the value. *)
Lemma bounds_full_window (x v : ext) : bounds NegInf PosInf x v -> v = x.
Proof.
  intros (Hlo & Hhi & Hin).
  pose proof (NegInf_le v). pose proof (le_PosInf v).
  destruct (ext_ltb NegInf x) eqn:E1; [destruct (ext_ltb x PosInf) eqn:E2 |].
  - now apply Hin.
  - specialize (Hhi E2). ext_order.
  - specialize (Hlo E1). ext_order.
Qed.

(** ** Pruning does not change the value *)

(** Settles the premise of every implication between scores in the
    context: where it follows from the known comparisons the conclusion
    is kept, where it is refuted the implication is dropped, and
    otherwise both cases are considered. *)
Ltac use_bounds :=
  repeat match goal with
  | H : ext_le ?x ?y -> _ |- _ =>
    first
      [ let P := fresh in
        assert (P : ext_le x y) by ext_order; specialize (H P); clear P
      | let P := fresh in
        assert (P : ext_lt y x) by ext_order; clear H P
      | let E := fresh "E" in
        destruct (ext_ltb y x) eqn:E; [clear H | specialize (H E)] ]
  | H : ext_lt ?x ?y -> _ |- _ =>
    first
      [ let P := fresh in
        assert (P : ext_lt x y) by ext_order; specialize (H P); clear P
      | let P := fresh in
        assert (P : ext_le y x) by ext_order; clear H P
      | let E := fresh "E" in
        destruct (ext_ltb x y) eqn:E; [specialize (H E) | clear H] ]
  end.

Ltac ext_cases :=
  repeat split; intros; try reflexivity; use_bounds; ext_order.

Section LoopValues.

Variable rec : search.
Variable prec : TicTacToe -> option ext.
Variable s : TicTacToe.
Variable depth : Z.
Hypothesis no_winner : winner s = None.

(** The maximizing loop, entered with a running best at or below the
    running alpha and a proper window, against the maximum [M] of the
    values of the cells still to visit: its result [x] is at least the
    running best; at or below alpha it bounds [M] from above; strictly
    inside the window it is [M]; at or above beta it bounds [M] from
    below. *)
Lemma max_loop_value (cells : list (idx * idx)) :
  (forall row col, In (row, col) cells -> get_cell (board s) row col = None) ->
  children_agree rec prec s depth false MarkO cells ->
  forall best best_move alpha beta,
    ext_le best alpha -> ext_lt alpha beta ->
    exists x best_move' M,
      max_loop rec cells s depth best best_move alpha beta
      = (Ok (x, best_move'), s)
      /\ plain_loop prec true s cells = Some M
      /\ ext_le best x
      /\ (ext_le x alpha -> ext_le M x)
      /\ (ext_lt alpha x -> ext_lt x beta -> M = x)
      /\ (ext_lt alpha x -> ext_le beta x -> ext_le x M).
Proof.
  induction cells as [| [row col] rest IH]; intros Hblank Hrec best bm a b Hba Hab.
  - exists best, bm, NegInf. pose proof (NegInf_le best). ext_cases.
  - assert (Hblank' : forall row col, In (row, col) rest ->
                        get_cell (board s) row col = None)
      by (intros; apply Hblank; now right).
    assert (Hrec' : children_agree rec prec s depth false MarkO rest)
      by (intros r0 c0 a0 b0 Hin; apply Hrec; now right).
    specialize (IH Hblank' Hrec').
    destruct (IH best bm a b Hba Hab) as (_ & _ & Mr & _ & HMr & _).
    destruct (Hrec row col a b (in_eq _ _) Hab) as (r & m1 & Hcall & Hp & Hb).
    cbn [max_loop plain_loop]. rewrite Hcall, Hp, HMr.
    rewrite undo_place by (auto using in_eq).
    destruct Hb as (Hb1 & Hb2 & Hb3).
    set (v1 := score r) in *. clearbody v1.
    unfold ext_max.
    destruct (ext_ltb best v1) eqn:E1.
    + (* the child improves the running best *)
      destruct (ext_ltb a v1) eqn:E2.
      * destruct (ext_leb b v1) eqn:E3.
        -- apply ext_leb_true in E3.
           exists v1, (Some (row, col)), (if ext_ltb m1 Mr then Mr else m1).
           destruct (ext_ltb m1 Mr) eqn:E4; ext_cases.
        -- apply ext_leb_false in E3.
           destruct (IH v1 (Some (row, col)) v1 b) as
             (x & bm' & Mr' & Hloop & HMr' & H1 & H2 & H3 & H4);
             [ext_order | ext_order |].
           rewrite HMr in HMr'. injection HMr' as <-.
           exists x, bm', (if ext_ltb m1 Mr then Mr else m1).
           rewrite Hloop.
           destruct (ext_ltb m1 Mr) eqn:E4; ext_cases.
      * destruct (ext_leb b a) eqn:E3;
          [apply ext_leb_true in E3; exfalso; ext_order |].
        destruct (IH v1 (Some (row, col)) a b) as
          (x & bm' & Mr' & Hloop & HMr' & H1 & H2 & H3 & H4);
          [ext_order | ext_order |].
        rewrite HMr in HMr'. injection HMr' as <-.
        exists x, bm', (if ext_ltb m1 Mr then Mr else m1).
        rewrite Hloop.
        destruct (ext_ltb m1 Mr) eqn:E4; ext_cases.
    + (* the running best stays *)
      destruct (ext_ltb a best) eqn:E2; [exfalso; ext_order |].
      destruct (ext_leb b a) eqn:E3;
        [apply ext_leb_true in E3; exfalso; ext_order |].
      destruct (IH best bm a b) as
        (x & bm' & Mr' & Hloop & HMr' & H1 & H2 & H3 & H4);
        [ext_order | ext_order |].
      rewrite HMr in HMr'. injection HMr' as <-.
      exists x, bm', (if ext_ltb m1 Mr then Mr else m1).
      rewrite Hloop.
      destruct (ext_ltb m1 Mr) eqn:E4; ext_cases.
Qed.

(** The minimizing loop, dually. *)
Lemma min_loop_value (cells : list (idx * idx)) :
  (forall row col, In (row, col) cells -> get_cell (board s) row col = None) ->
  children_agree rec prec s depth true MarkX cells ->
  forall best best_move alpha beta,
    ext_le beta best -> ext_lt alpha beta ->
    exists x best_move' M,
      min_loop rec cells s depth best best_move alpha beta
      = (Ok (x, best_move'), s)
      /\ plain_loop prec false s cells = Some M
      /\ ext_le x best
      /\ (ext_le beta x -> ext_le x M)
      /\ (ext_lt alpha x -> ext_lt x beta -> M = x)
      /\ (ext_lt x beta -> ext_le x alpha -> ext_le M x).
Proof.
  induction cells as [| [row col] rest IH]; intros Hblank Hrec best bm a b Hba Hab.
  - exists best, bm, PosInf. pose proof (le_PosInf best). ext_cases.
  - assert (Hblank' : forall row col, In (row, col) rest ->
                        get_cell (board s) row col = None)
      by (intros; apply Hblank; now right).
    assert (Hrec' : children_agree rec prec s depth true MarkX rest)
      by (intros r0 c0 a0 b0 Hin; apply Hrec; now right).
    specialize (IH Hblank' Hrec').
    destruct (IH best bm a b Hba Hab) as (_ & _ & Mr & _ & HMr & _).
    destruct (Hrec row col a b (in_eq _ _) Hab) as (r & m1 & Hcall & Hp & Hb).
    cbn [min_loop plain_loop]. rewrite Hcall, Hp, HMr.
    rewrite undo_place by (auto using in_eq).
    destruct Hb as (Hb1 & Hb2 & Hb3).
    set (v1 := score r) in *. clearbody v1.
    unfold ext_min.
    destruct (ext_ltb v1 best) eqn:E1.
    + (* the child improves the running best *)
      destruct (ext_ltb v1 b) eqn:E2.
      * destruct (ext_leb v1 a) eqn:E3.
        -- apply ext_leb_true in E3.
           exists v1, (Some (row, col)), (if ext_ltb Mr m1 then Mr else m1).
           destruct (ext_ltb Mr m1) eqn:E4; ext_cases.
        -- apply ext_leb_false in E3.
           destruct (IH v1 (Some (row, col)) a v1) as
             (x & bm' & Mr' & Hloop & HMr' & H1 & H2 & H3 & H4);
             [ext_order | ext_order |].
           rewrite HMr in HMr'. injection HMr' as <-.
           exists x, bm', (if ext_ltb Mr m1 then Mr else m1).
           rewrite Hloop.
           destruct (ext_ltb Mr m1) eqn:E4; ext_cases.
      * destruct (ext_leb b a) eqn:E3;
          [apply ext_leb_true in E3; exfalso; ext_order |].
        destruct (IH v1 (Some (row, col)) a b) as
          (x & bm' & Mr' & Hloop & HMr' & H1 & H2 & H3 & H4);
          [ext_order | ext_order |].
        rewrite HMr in HMr'. injection HMr' as <-.
        exists x, bm', (if ext_ltb Mr m1 then Mr else m1).
        rewrite Hloop.
        destruct (ext_ltb Mr m1) eqn:E4; ext_cases.
    + (* the running best stays *)
      destruct (ext_ltb best b) eqn:E2; [exfalso; ext_order |].
      destruct (ext_leb b a) eqn:E3;
        [apply ext_leb_true in E3; exfalso; ext_order |].
      destruct (IH best bm a b) as
        (x & bm' & Mr' & Hloop & HMr' & H1 & H2 & H3 & H4);
        [ext_order | ext_order |].
      rewrite HMr in HMr'. injection HMr' as <-.
      exists x, bm', (if ext_ltb Mr m1 then Mr else m1).
      rewrite Hloop.
      destruct (ext_ltb Mr m1) eqn:E4; ext_cases.
Qed.

End LoopValues.

(** With enough fuel and a proper window, the search returns, restores
    the position, and its score bounds the plain minimax value. *)
Lemma minimax_fuel_value (fuel : nat) :
  forall s depth is_maximizing alpha beta,
    (length (get_empty_cells s) < fuel)%nat ->
    ext_lt alpha beta ->
    exists r v,
      minimax_fuel fuel s depth is_maximizing alpha beta = (Ok r, s)
      /\ plain_minimax_fuel fuel depth is_maximizing s = Some v
      /\ bounds alpha beta (score r) v.
Proof.
  induction fuel as [| fuel IH]; intros s depth is_max a b Hlen Hab; [lia |].
  cbn [minimax_fuel plain_minimax_fuel].
  assert (Hleaf : forall z, exists r v,
             (Ok (leaf z), s) = (Ok r, s) /\ Some (Fin z) = Some v
             /\ bounds a b (score r) v).
  { intros z. exists (leaf z), (Fin z).
    split; [reflexivity | split; [reflexivity | apply bounds_exact]]. }
  destruct (winner s) as [[|] |] eqn:Hw; try apply Hleaf.
  destruct (is_board_full s); [apply Hleaf |].
  destruct (_ <=? depth); [apply Hleaf |].
  clear Hleaf.
  assert (Hchild : forall p row col,
             In (row, col) (get_empty_cells (set_current_player s p)) ->
             (length (get_empty_cells
                        (place (set_current_player s p) row col p))
              < fuel)%nat).
  { intros p row col Hin. apply in_get_empty_cells in Hin.
    pose proof (get_empty_cells_set _ _ row col p Hin
                  (board_place _ row col p)) as Hlt.
    rewrite (get_empty_cells_board (set_current_player s p) s eq_refl) in Hlt.
    lia. }
  destruct is_max; cbn [negb].
  - destruct (max_loop_value (minimax_fuel fuel)
                (plain_minimax_fuel fuel (depth + 1) false)
                (set_current_player s MarkO) depth Hw
                (get_empty_cells (set_current_player s MarkO)))
      with (best := NegInf) (best_move := @None (idx * idx))
           (alpha := a) (beta := b)
      as (x & bm & M & -> & -> & H1 & H2 & H3 & H4).
    + intros row col. apply in_get_empty_cells.
    + intros row col a' b' Hin Hab'. apply IH; auto.
    + apply NegInf_le.
    + exact Hab.
    + rewrite set_current_player_back. exists (mkResult x (Some bm)), M.
      cbn [score]. unfold bounds. ext_cases.
  - destruct (min_loop_value (minimax_fuel fuel)
                (plain_minimax_fuel fuel (depth + 1) true)
                (set_current_player s MarkX) depth Hw
                (get_empty_cells (set_current_player s MarkX)))
      with (best := PosInf) (best_move := @None (idx * idx))
           (alpha := a) (beta := b)
      as (x & bm & M & -> & -> & H1 & H2 & H3 & H4).
    + intros row col. apply in_get_empty_cells.
    + intros row col a' b' Hin Hab'. apply IH; auto.
    + apply le_PosInf.
    + exact Hab.
    + rewrite set_current_player_back. exists (mkResult x (Some bm)), M.
      cbn [score]. unfold bounds. ext_cases.
Qed.

(** C9.  [minimax] is a function of its arguments, so two runs on equal
    positions, depths and sides return equal results; and for every
    position, starting depth and side, the score it returns with the
    full window is the value that plain minimax, without pruning,
    gives to the same position under the same depth limit and the same
    row-major order of the blank cells. *)
Theorem pruning_keeps_the_score (s : TicTacToe) (depth : Z)
    (is_maximizing : bool) :
  (forall s2 depth2 is_maximizing2,
      s2 = s -> depth2 = depth -> is_maximizing2 = is_maximizing ->
      minimax s2 depth2 is_maximizing2 NegInf PosInf
      = minimax s depth is_maximizing NegInf PosInf)
  /\ exists r,
       minimax s depth is_maximizing NegInf PosInf = (Ok r, s)
       /\ plain_minimax s depth is_maximizing = Some (score r).
Proof.
  split; [now intros s2 depth2 m2 -> -> -> |].
  destruct (minimax_fuel_value 10 s depth is_maximizing NegInf PosInf)
    as (r & v & Hr & Hv & Hb).
  - pose proof (get_empty_cells_length s). lia.
  - reflexivity.
  - exists r. split; [exact Hr |].
    unfold plain_minimax. rewrite Hv. f_equal.
    now apply bounds_full_window.
Qed.

Lemma pruning_keeps_the_score_witness :
  exists r,
    minimax medium_root 0 true NegInf PosInf = (Ok r, medium_root)
    /\ plain_minimax medium_root 0 true = Some (score r).
Proof. apply (pruning_keeps_the_score medium_root 0 true). Defined.

(** ** The scenarios of the specification, run on the model *)

(** X completes the top row: the move is accepted and X has won. *)
Example scenario_winning_move :
  fst (make_move x_to_win 0 2) = Ok true
  /\ query_outcome (snd (make_move x_to_win 0 2)) = Won MarkX.
Proof. split; reflexivity. Qed.

(** On the full drawn board every move is refused and the outcome is a
    draw. *)
Example scenario_drawn_board :
  query_outcome drawn_board = Drawn
  /\ forallb
       (fun rc =>
          match make_move drawn_board (fst rc) (snd rc) with
          | (Ok false, _) => true
          | _ => false
          end)
       all_cells = true.
Proof. split; reflexivity. Qed.

(** The Hard computer answers a corner opening in the centre, with a
    score of 0. *)
Example scenario_first_reply :
  fst (minimax (snd (make_move hard_game 0 0)) 0 true NegInf PosInf)
  = Ok (mkResult (Fin 0) (Some (Some (I1, I1)))).
Proof. vm_compute. reflexivity. Qed.

(** * Further properties of the engine *)

(** ** Lines *)

Lemma cell_eqb_eq (a b : cell) : cell_eqb a b = true <-> a = b.
Proof.
  destruct a as [[] |], b as [[] |]; cbn; split; congruence.
Qed.

(** [has_win] as a test over the eight lines. *)
Lemma has_win_lines (b : grid) (p : cell) :
  has_win b p
  = existsb
      (forallb (fun rc => cell_eqb p (get_cell b (fst rc) (snd rc))))
      win_lines.
Proof.
  destruct b as [[[[a0 a1] a2] [[b0 b1] b2]] [[c0 c1] c2]].
  win_formula. cbn.
  destruct (cell_eqb p a0), (cell_eqb p a1), (cell_eqb p a2),
    (cell_eqb p b0), (cell_eqb p b1), (cell_eqb p b2),
    (cell_eqb p c0), (cell_eqb p c1), (cell_eqb p c2); reflexivity.
Qed.

(** X1.  [check_win]'s test, made with [count] on rows and columns and
    with chained equalities on the diagonals, holds for a mark exactly
    when one of the eight lines of the grid is filled with that mark. *)
Theorem has_win_iff_full_line (b : grid) (m : mark) :
  has_win b (Some m) = true
  <-> exists line,
        In line win_lines
        /\ forall row col, In (row, col) line -> get_cell b row col = Some m.
Proof.
  rewrite has_win_lines, existsb_exists. split.
  - intros (line & Hin & Hall). exists line. split; [exact Hin |].
    rewrite forallb_forall in Hall. intros row col Hrc.
    specialize (Hall (row, col) Hrc). cbn [fst snd] in Hall.
    symmetry. now apply cell_eqb_eq.
  - intros (line & Hin & Hall). exists line. split; [exact Hin |].
    apply forallb_forall. intros [row col] Hrc. cbn [fst snd].
    apply cell_eqb_eq. symmetry. now apply Hall.
Qed.

Lemma has_win_iff_full_line_witness :
  exists line,
    In line win_lines
    /\ forall row col,
         In (row, col) line -> get_cell (board x_has_won) row col = Some MarkX.
Proof. apply (has_win_iff_full_line (board x_has_won) MarkX). reflexivity. Defined.

(** ** Blank cells *)

Lemma get_empty_cells_count (s : TicTacToe) :
  Z.of_nat (length (get_empty_cells s)) = 9 - count_marks (board s).
Proof.
  unfold get_empty_cells, count_marks, cells_of.
  destruct (board s) as [[[[a0 a1] a2] [[b0 b1] b2]] [[c0 c1] c2]].
  destruct_cells; reflexivity.
Qed.

Lemma get_empty_cells_sorted (s : TicTacToe) :
  StronglySorted (fun a b => position a < position b) (get_empty_cells s).
Proof.
  unfold get_empty_cells.
  destruct (board s) as [[[[a0 a1] a2] [[b0 b1] b2]] [[c0 c1] c2]].
  destruct_cells; cbn; repeat constructor.
Qed.

(** X2.  [get_empty_cells] returns exactly the blank cells, each once,
    in strictly increasing row-major order, and there are 9 minus the
    number of marks of them. *)
Theorem get_empty_cells_spec (s : TicTacToe) :
  (forall row col,
      In (row, col) (get_empty_cells s) <-> get_cell (board s) row col = None)
  /\ NoDup (get_empty_cells s)
  /\ StronglySorted (fun a b => position a < position b) (get_empty_cells s)
  /\ Z.of_nat (length (get_empty_cells s)) = 9 - count_marks (board s).
Proof.
  split; [apply in_get_empty_cells |].
  split; [| split; [apply get_empty_cells_sorted | apply get_empty_cells_count]].
  pose proof (get_empty_cells_sorted s) as H.
  induction H as [| a l _ IH Hall]; constructor; [| exact IH].
  intros Hin. rewrite Forall_forall in Hall. specialize (Hall a Hin). lia.
Qed.

(** ** What a move changes *)

Lemma get_set_other (b : grid) (row col row' col' : idx) (x : cell) :
  (row', col') <> (row, col) ->
  get_cell (set_cell b row col x) row' col' = get_cell b row' col'.
Proof.
  destruct b as [[[[a0 a1] a2] [[b0 b1] b2]] [[c0 c1] c2]].
  destruct row, col, row', col'; intros H; try reflexivity; now elim H.
Qed.

(** The shape of an accepted move. *)
Lemma make_move_accepted_inv (s : TicTacToe) (row col : Z) (s' : TicTacToe) :
  make_move s row col = (Ok true, s') ->
  game_over s = false
  /\ exists r c,
       py_index row = Some r /\ py_index col = Some c
       /\ get_cell (board s) r c = None
       /\ board s' = set_cell (board s) r c (Some (current_player s))
       /\ moves_count s' = moves_count s + 1
       /\ ai_enabled s' = ai_enabled s
       /\ ai_difficulty s' = ai_difficulty s.
Proof.
  unfold make_move.
  destruct (game_over s); [discriminate |].
  destruct (py_index row) as [r |]; [| discriminate].
  destruct (py_index col) as [c |]; [| discriminate].
  destruct (get_cell (board s) r c) eqn:Hc; [discriminate |].
  intros H. split; [reflexivity |]. exists r, c.
  destruct (check_win _); [| destruct (_ =? 9)];
    injection H as <-; repeat split; assumption.
Qed.

(** X3.  An accepted move ([make_move] returning [True]) was made in a
    running game on a blank cell; afterwards that cell holds the mark of
    the player who was to move, every other cell is as before, the move
    count has gone up by one and the menu's settings are untouched. *)
Theorem make_move_accepted (s : TicTacToe) (row col : Z) (s' : TicTacToe) :
  make_move s row col = (Ok true, s') ->
  game_over s = false
  /\ exists r c,
       py_index row = Some r /\ py_index col = Some c
       /\ get_cell (board s) r c = None
       /\ get_cell (board s') r c = Some (current_player s)
       /\ (forall r' c', (r', c') <> (r, c) ->
             get_cell (board s') r' c' = get_cell (board s) r' c')
       /\ moves_count s' = moves_count s + 1
       /\ ai_enabled s' = ai_enabled s
       /\ ai_difficulty s' = ai_difficulty s.
Proof.
  intros H.
  destruct (make_move_accepted_inv s row col s' H)
    as (Hg & r & c & Hr & Hc & Hblank & Hb & Hn & He & Hd).
  split; [exact Hg |]. exists r, c. rewrite Hb.
  repeat split; try assumption.
  - apply get_set_same.
  - intros r' c' Hne. now apply get_set_other.
Qed.

Lemma make_move_accepted_witness :
  game_over new_game = false
  /\ exists r c,
       py_index 1 = Some r /\ py_index (-1) = Some c
       /\ get_cell (board new_game) r c = None
       /\ get_cell (board (snd (make_move new_game 1 (-1)))) r c
          = Some (current_player new_game)
       /\ (forall r' c', (r', c') <> (r, c) ->
             get_cell (board (snd (make_move new_game 1 (-1)))) r' c'
             = get_cell (board new_game) r' c')
       /\ moves_count (snd (make_move new_game 1 (-1)))
          = moves_count new_game + 1
       /\ ai_enabled (snd (make_move new_game 1 (-1))) = ai_enabled new_game
       /\ ai_difficulty (snd (make_move new_game 1 (-1)))
          = ai_difficulty new_game.
Proof. apply (make_move_accepted new_game 1 (-1)). reflexivity. Defined.

(** ** Subscripts *)

Lemma py_index_none (i : Z) : py_index i = None <-> ~ (-3 <= i < 3).
Proof.
  unfold py_index.
  destruct (i =? 0) eqn:E0; [apply Z.eqb_eq in E0; split; [discriminate | lia] |].
  destruct (i =? 1) eqn:E1; [apply Z.eqb_eq in E1; split; [discriminate | lia] |].
  destruct (i =? 2) eqn:E2; [apply Z.eqb_eq in E2; split; [discriminate | lia] |].
  destruct (i =? -3) eqn:E3; [apply Z.eqb_eq in E3; split; [discriminate | lia] |].
  destruct (i =? -2) eqn:E4; [apply Z.eqb_eq in E4; split; [discriminate | lia] |].
  destruct (i =? -1) eqn:E5; [apply Z.eqb_eq in E5; split; [discriminate | lia] |].
  apply Z.eqb_neq in E0, E1, E2, E3, E4, E5. split; [lia | reflexivity].
Qed.

Lemma py_index_mod (i : Z) : -3 <= i < 3 -> py_index i = py_index (i mod 3).
Proof.
  intros H.
  assert (i = -3 \/ i = -2 \/ i = -1 \/ i = 0 \/ i = 1 \/ i = 2)
    as [-> | [-> | [-> | [-> | [-> | ->]]]]] by lia; reflexivity.
Qed.

(** X4.  [make_move] raises [IndexError] exactly when the game is
    running and the row or the column is outside -3..2; the game object
    is then unchanged.  (In a finished game it returns [False] whatever
    the arguments.) *)
Theorem make_move_index_error (s : TicTacToe) (row col : Z) :
  (fst (make_move s row col) = IndexError
   <-> game_over s = false /\ ~ (-3 <= row < 3 /\ -3 <= col < 3))
  /\ (fst (make_move s row col) = IndexError -> snd (make_move s row col) = s).
Proof.
  split.
  - unfold make_move.
    destruct (game_over s).
    { cbn. split; [discriminate | intros [H _]; discriminate]. }
    destruct (py_index row) as [r |] eqn:Hr.
    2: { apply py_index_none in Hr. cbn. split; [| reflexivity].
         intros _. split; [reflexivity | lia]. }
    destruct (py_index col) as [c |] eqn:Hc.
    2: { apply py_index_none in Hc. cbn. split; [| reflexivity].
         intros _. split; [reflexivity | lia]. }
    assert (Hr' : py_index row <> None) by congruence.
    assert (Hc' : py_index col <> None) by congruence.
    rewrite py_index_none in Hr', Hc'.
    assert (forall x : res bool * TicTacToe,
               (exists b, fst x = Ok b) ->
               fst x = IndexError <->
               false = false /\ ~ (-3 <= row < 3 /\ -3 <= col < 3)) as K.
    { intros x [b Hb]. rewrite Hb. split; [discriminate |].
      intros [_ Hn]. exfalso. apply Hn. lia. }
    apply K.
    destruct (get_cell (board s) r c); [now exists false |].
    cbv zeta. destruct (check_win _); [now exists true |].
    destruct (_ =? 9); now exists true.
  - intros H. destruct (make_move s row col) as [r s'] eqn:E. cbn in *.
    apply (make_move_rejected s row col r s' E). rewrite H. discriminate.
Qed.

Lemma make_move_index_error_witness :
  fst (make_move new_game 3 0) = IndexError
  /\ snd (make_move new_game 3 0) = new_game.
Proof.
  destruct (make_move_index_error new_game 3 0) as [[_ H1] H2].
  assert (H : fst (make_move new_game 3 0) = IndexError)
    by (apply H1; split; [reflexivity | lia]).
  split; [exact H | exact (H2 H)].
Defined.

(** X5.  Python's negative subscripts reach the grid through
    [make_move]: for a row and a column in -3..2 the call is the same as
    the call at the row and column taken modulo 3, so (-1, -1) is the
    move at (2, 2). *)
Theorem make_move_negative_index (s : TicTacToe) (row col : Z) :
  -3 <= row < 3 -> -3 <= col < 3 ->
  make_move s row col = make_move s (row mod 3) (col mod 3).
Proof.
  intros Hr Hc. unfold make_move.
  now rewrite <- (py_index_mod row Hr), <- (py_index_mod col Hc).
Qed.

Lemma make_move_negative_index_witness :
  make_move new_game (-1) (-3) = make_move new_game ((-1) mod 3) ((-3) mod 3).
Proof. apply make_move_negative_index; lia. Defined.

(** ** Placing and undoing inside the search *)

(** X6.  Undoing a speculative placement made on a blank cell gives the
    position back except for the [winner] field, which the undo always
    clears; when no winner was recorded the position is exactly the one
    before the placement. *)
Theorem undo_after_place (s : TicTacToe) (row col : idx) (p : mark) :
  get_cell (board s) row col = None ->
  undo (place s row col p) row col = set_winner s None
  /\ (winner s = None -> undo (place s row col p) row col = s).
Proof.
  intros Hc.
  assert (H : undo (place s row col p) row col = set_winner s None).
  { unfold undo, place. destruct s as [b cp go w n e d]. cbn in Hc.
    destruct check_win; cbn; rewrite (set_blank_again _ _ _ _ Hc);
      unfold set_winner, set_moves_count, set_board; cbn; f_equal; lia. }
  split; [exact H |]. intros Hw. rewrite H. destruct s; cbn in *. now subst.
Qed.

Lemma undo_after_place_witness :
  undo (place x_has_won I2 I2 MarkO) I2 I2 = set_winner x_has_won None
  /\ (winner x_has_won = None ->
      undo (place x_has_won I2 I2 MarkO) I2 I2 = x_has_won).
Proof. apply undo_after_place. reflexivity. Defined.

(** ** The computer's move, whatever the position *)

Lemma make_move_at_cell (s : TicTacToe) (r c : idx) :
  exists b, fst (make_move s (Z_of_idx r) (Z_of_idx c)) = Ok b.
Proof.
  unfold make_move. destruct (game_over s); [now exists false |].
  rewrite !py_index_Z_of_idx.
  destruct (get_cell (board s) r c); [now exists false |].
  cbv zeta. destruct (check_win _); [now exists true |].
  destruct (_ =? 9); now exists true.
Qed.

Lemma ignore_make_move_at_cell (s : TicTacToe) (r c : idx) :
  ignore (make_move s (Z_of_idx r) (Z_of_idx c))
  = (Ok tt, snd (make_move s (Z_of_idx r) (Z_of_idx c))).
Proof.
  destruct (make_move_at_cell s r c) as [b Hb].
  destruct (make_move s (Z_of_idx r) (Z_of_idx c)) as [x s'].
  cbn in *. now subst.
Qed.

(** A move on a blank cell of a running game is accepted. *)
Lemma make_move_on_blank (s : TicTacToe) (r c : idx) :
  game_over s = false -> get_cell (board s) r c = None ->
  fst (make_move s (Z_of_idx r) (Z_of_idx c)) = Ok true.
Proof.
  intros Hg Hc. unfold make_move. rewrite Hg, !py_index_Z_of_idx, Hc.
  cbv zeta. destruct (check_win _); [reflexivity |].
  destruct (_ =? 9); reflexivity.
Qed.

(** X7.  [ai_move] raises nothing: for every game object, difficulty
    and random draw it returns normally (the cells it passes to
    [make_move] are always in range, and the search always has fuel). *)
Theorem ai_move_never_raises (s : TicTacToe) (coin : bool) (pick : nat) :
  fst (ai_move s coin pick) = Ok tt.
Proof.
  assert (Heasy : fst (ai_move_easy s pick) = Ok tt).
  { unfold ai_move_easy. destruct (get_empty_cells s); [reflexivity |].
    destruct (nth _ _ _) as [r c]. now rewrite ignore_make_move_at_cell. }
  assert (Hhard : fst (ai_move_hard s) = Ok tt).
  { unfold ai_move_hard.
    destruct (minimax_restores s 0 true NegInf PosInf) as [res0 ->].
    destruct (move res0) as [[[r c] |] |]; try reflexivity.
    now rewrite ignore_make_move_at_cell. }
  unfold ai_move, ai_move_medium.
  destruct (ai_difficulty s); [exact Heasy | | exact Hhard].
  destruct coin; [exact Hhard | exact Heasy].
Qed.

(** X8.  In a running game with a blank cell, [ai_move_easy] always
    makes an accepted move on a blank cell, and every blank cell is
    played for some random draw. *)
Theorem ai_move_easy_plays_blank_cells (s : TicTacToe) :
  game_over s = false ->
  (forall pick,
      get_empty_cells s <> [] ->
      exists r c,
        In (r, c) (get_empty_cells s)
        /\ make_move s (Z_of_idx r) (Z_of_idx c)
           = (Ok true, snd (ai_move_easy s pick))
        /\ fst (ai_move_easy s pick) = Ok tt)
  /\ (forall r c,
         In (r, c) (get_empty_cells s) ->
         exists pick,
           make_move s (Z_of_idx r) (Z_of_idx c)
           = (Ok true, snd (ai_move_easy s pick))).
Proof.
  intros Hg.
  assert (Hplay : forall r c,
             In (r, c) (get_empty_cells s) ->
             ignore (make_move s (Z_of_idx r) (Z_of_idx c))
             = (Ok tt, snd (make_move s (Z_of_idx r) (Z_of_idx c)))
             /\ make_move s (Z_of_idx r) (Z_of_idx c)
                = (Ok true, snd (make_move s (Z_of_idx r) (Z_of_idx c)))).
  { intros r c Hin. apply in_get_empty_cells in Hin.
    split; [apply ignore_make_move_at_cell |].
    rewrite <- (make_move_on_blank s r c Hg Hin). apply surjective_pairing. }
  split.
  - intros pick Hne. unfold ai_move_easy.
    destruct (get_empty_cells s) as [| c0 l] eqn:E; [now elim Hne |].
    assert (Hin : In (nth (pick mod length (c0 :: l))%nat (c0 :: l) c0)
                     (c0 :: l)).
    { apply nth_In. apply Nat.mod_upper_bound. discriminate. }
    destruct (nth _ _ _) as [r c].
    destruct (Hplay r c Hin) as [Hi Hm].
    exists r, c. rewrite Hi. cbn [fst snd]. auto.
  - intros r c Hin.
    destruct (In_nth _ _ (r, c) Hin) as (n & Hn & Hnth).
    exists n. unfold ai_move_easy.
    destruct (get_empty_cells s) as [| c0 l] eqn:E; [contradiction |].
    rewrite Nat.mod_small by exact Hn.
    rewrite (nth_indep _ c0 (r, c) Hn), Hnth.
    destruct (Hplay r c Hin) as [Hi Hm].
    rewrite Hi. exact Hm.
Qed.

Lemma ai_move_easy_plays_blank_cells_witness :
  (forall pick,
      get_empty_cells x_to_win <> [] ->
      exists r c,
        In (r, c) (get_empty_cells x_to_win)
        /\ make_move x_to_win (Z_of_idx r) (Z_of_idx c)
           = (Ok true, snd (ai_move_easy x_to_win pick))
        /\ fst (ai_move_easy x_to_win pick) = Ok tt)
  /\ (forall r c,
         In (r, c) (get_empty_cells x_to_win) ->
         exists pick,
           make_move x_to_win (Z_of_idx r) (Z_of_idx c)
           = (Ok true, snd (ai_move_easy x_to_win pick))).
Proof. apply ai_move_easy_plays_blank_cells. reflexivity. Defined.

(** ** Alternating play *)

Lemma count_mark_set (b : grid) (row col : idx) (p q : mark) :
  get_cell b row col = None ->
  count_mark (set_cell b row col (Some p)) q
  = count_mark b q + (if mark_eqb q p then 1 else 0).
Proof.
  intros H. unfold count_mark, count, cells_of.
  destruct b as [[[[a0 a1] a2] [[b0 b1] b2]] [[c0 c1] c2]].
  destruct row, col; cbn in H; subst;
    cbn [set_cell upd3 nth3 to_list3 flat_map app filter];
    change (cell_eqb (Some q) (Some p)) with (mark_eqb q p);
    change (cell_eqb (Some q) None) with false;
    destruct (mark_eqb q p);
    repeat match goal with
           | |- context [cell_eqb (Some q) ?x] =>
             destruct (cell_eqb (Some q) x)
           end;
    cbn [length]; lia.
Qed.

Lemma count_marks_split (b : grid) :
  count_marks b = count_mark b MarkX + count_mark b MarkO.
Proof.
  unfold count_marks, count_mark, count.
  induction (cells_of b) as [| [[] |] l IH]; cbn [filter cell_eqb mark_eqb negb length];
    lia.
Qed.

Lemma count_marks_range (b : grid) : 0 <= count_marks b <= 9.
Proof.
  pose proof (get_empty_cells_count (mkGame b MarkX false None 0 false Easy)) as H.
  cbn [board] in H. unfold count_marks in *. lia.
Qed.

Lemma has_win_three (b : grid) (m : mark) :
  has_win b (Some m) = true -> 3 <= count_mark b m.
Proof.
  unfold count_mark, count, cells_of.
  destruct b as [[[[a0 a1] a2] [[b0 b1] b2]] [[c0 c1] c2]].
  win_formula. cbn [to_list3 flat_map app filter].
  destruct (cell_eqb (Some m) a0), (cell_eqb (Some m) a1),
    (cell_eqb (Some m) a2), (cell_eqb (Some m) b0), (cell_eqb (Some m) b1),
    (cell_eqb (Some m) b2), (cell_eqb (Some m) c0), (cell_eqb (Some m) c1),
    (cell_eqb (Some m) c2); cbn; intros H; try discriminate; lia.
Qed.

Lemma orderly_new : orderly new_game.
Proof.
  split; [apply consistent_new |]. split; [| discriminate].
  intros _. split; reflexivity.
Qed.

Lemma orderly_reset (s : TicTacToe) : orderly (reset_game s).
Proof.
  split; [apply consistent_reset |]. split; [| discriminate].
  intros _. split; reflexivity.
Qed.

Lemma orderly_make_move (s : TicTacToe) (row col : Z) (r : res bool)
    (s' : TicTacToe) :
  orderly s -> make_move s row col = (r, s') -> orderly s'.
Proof.
  intros Hord Hm. pose proof Hord as (Hcons & Hrun & Hover).
  split; [exact (consistent_make_move _ _ _ _ _ Hcons Hm) |].
  revert Hm. unfold make_move.
  destruct (game_over s) eqn:Hg.
  { intros [= <- <-]. rewrite Hg. split; [discriminate | exact Hover]. }
  destruct (py_index row) as [i |].
  2: { intros [= <- <-]. rewrite Hg. split; [exact Hrun | discriminate]. }
  destruct (py_index col) as [j |].
  2: { intros [= <- <-]. rewrite Hg. split; [exact Hrun | discriminate]. }
  destruct (get_cell (board s) i j) eqn:Hc.
  { intros [= <- <-]. rewrite Hg. split; [exact Hrun | discriminate]. }
  destruct (Hrun eq_refl) as [H9 Hcnt].
  destruct Hcons as (Hn & Hrun' & _). destruct (Hrun' Hg) as [Hw Hnone].
  cbv zeta. unfold check_win.
  cbn [board current_player moves_count set_board set_moves_count].
  destruct (has_win _ (Some (current_player s))) eqn:Hwin.
  - intros [= <- <-]. cbn. rewrite !count_mark_set by assumption.
    split; [discriminate |]. intros _. split.
    + destruct (current_player s); cbn in *; lia.
    + intros m [= <-]. split; [reflexivity |].
      rewrite has_win_other; [apply Hnone | assumption |].
      destruct (current_player s); discriminate.
  - destruct (moves_count s + 1 =? 9) eqn:E9; intros [= <- <-]; cbn;
      rewrite !count_mark_set by assumption; rewrite ?Hg, ?Hw.
    + split; [discriminate |]. intros _. split.
      * destruct (current_player s); cbn in *; lia.
      * intros m H. discriminate.
    + apply Z.eqb_neq in E9. split; [| discriminate]. intros _. split; [lia |].
      destruct (current_player s); cbn in *; lia.
Qed.

Lemma reachable_orderly (s : TicTacToe) : reachable s -> orderly s.
Proof.
  induction 1 as [| s _ IH | s row col r s' _ IH Hm
                  | s coin pick r s' _ IH Ha | s e d _ IH].
  - apply orderly_new.
  - apply orderly_reset.
  - exact (orderly_make_move _ _ _ _ _ IH Hm).
  - destruct (ai_move_is_make_move _ _ _ _ _ Ha)
      as [-> | (row & col & r' & Hm)]; [exact IH |].
    exact (orderly_make_move _ _ _ _ _ IH Hm).
  - exact IH.
Qed.

(** X9.  In every reachable state X and O have alternated: X has as
    many marks as O or one more, together they are the move count, and
    while the game runs it is X's turn exactly when the two have equally
    many (computer moves included, since they are placed with the mark
    of the player to move). *)
Theorem marks_alternate (s : TicTacToe) :
  reachable s ->
  (count_mark (board s) MarkX = count_mark (board s) MarkO
   \/ count_mark (board s) MarkX = count_mark (board s) MarkO + 1)
  /\ count_mark (board s) MarkX + count_mark (board s) MarkO = moves_count s
  /\ (game_over s = false ->
      (current_player s = MarkX
       <-> count_mark (board s) MarkX = count_mark (board s) MarkO)).
Proof.
  intros H. destruct (reachable_orderly s H) as ((Hn & _ & _) & Hrun & Hover).
  rewrite Hn, count_marks_split.
  destruct (game_over s).
  - destruct (Hover eq_refl) as [Hc _].
    split; [| split; [reflexivity | discriminate]].
    destruct (current_player s); cbn in Hc; lia.
  - destruct (Hrun eq_refl) as [_ Hc].
    split; [| split; [reflexivity |]].
    + destruct (current_player s); cbn in Hc; lia.
    + intros _. destruct (current_player s); cbn in Hc;
        split; intros; try reflexivity; try discriminate; lia.
Qed.

Lemma marks_alternate_witness :
  (count_mark (board x_has_won) MarkX = count_mark (board x_has_won) MarkO
   \/ count_mark (board x_has_won) MarkX
      = count_mark (board x_has_won) MarkO + 1)
  /\ count_mark (board x_has_won) MarkX + count_mark (board x_has_won) MarkO
     = moves_count x_has_won
  /\ (game_over x_has_won = false ->
      (current_player x_has_won = MarkX
       <-> count_mark (board x_has_won) MarkX
           = count_mark (board x_has_won) MarkO)).
Proof. apply marks_alternate. apply reachable_x_has_won. Defined.

(** X10.  In every reachable state the game is in progress exactly when
    neither mark has a line and fewer than nine moves have been made. *)
Theorem in_progress_iff (s : TicTacToe) :
  reachable s ->
  (query_outcome s = InProgress
   <-> (forall m, has_win (board s) (Some m) = false) /\ moves_count s < 9).
Proof.
  intros H.
  destruct (reachable_orderly s H) as ((Hn & Hrun' & Hover') & Hrun & _).
  unfold query_outcome. destruct (game_over s).
  - specialize (Hover' eq_refl). destruct (winner s) as [m |].
    + split; [discriminate |]. intros [Hno _]. rewrite Hno in Hover'.
      discriminate.
    + split; [discriminate |]. intros [_ Hlt]. destruct Hover' as [H9 _]. lia.
  - destruct (Hrun' eq_refl) as [_ Hno]. destruct (Hrun eq_refl) as [Hlt _].
    split; [intros _; split; assumption | reflexivity].
Qed.

Lemma in_progress_iff_witness :
  query_outcome x_has_won = InProgress
  <-> (forall m, has_win (board x_has_won) (Some m) = false)
      /\ moves_count x_has_won < 9.
Proof. apply in_progress_iff. apply reachable_x_has_won. Defined.

(** X11.  In every reachable state the move count is between 0 and 9,
    [is_board_full] (which looks at the count) is true exactly when
    [get_empty_cells] (which looks at the grid) finds no blank cell, and
    a full board means the game is over. *)
Theorem full_board_agrees (s : TicTacToe) :
  reachable s ->
  0 <= moves_count s <= 9
  /\ (is_board_full s = true <-> get_empty_cells s = [])
  /\ (is_board_full s = true -> game_over s = true).
Proof.
  intros H.
  destruct (reachable_orderly s H) as ((Hn & _ & _) & Hrun & _).
  pose proof (count_marks_range (board s)) as Hr.
  pose proof (get_empty_cells_count s) as Hlen.
  unfold is_board_full. rewrite Z.eqb_eq.
  split; [lia |]. split.
  - split.
    + intros H9. destruct (get_empty_cells s);
        [reflexivity | cbn [length] in Hlen; lia].
    + intros E. rewrite E in Hlen. cbn [length] in Hlen. lia.
  - intros H9. destruct (game_over s); [reflexivity |].
    destruct (Hrun eq_refl). lia.
Qed.

Lemma full_board_agrees_witness :
  0 <= moves_count x_has_won <= 9
  /\ (is_board_full x_has_won = true <-> get_empty_cells x_has_won = [])
  /\ (is_board_full x_has_won = true -> game_over x_has_won = true).
Proof. apply full_board_agrees. apply reachable_x_has_won. Defined.

(** X12.  In no reachable state do both marks have a line, and a
    recorded winner is always the player who made the last move (the
    one [current_player] still names). *)
Theorem one_winner_at_most (s : TicTacToe) :
  reachable s ->
  ~ (has_win (board s) (Some MarkX) = true
     /\ has_win (board s) (Some MarkO) = true)
  /\ (forall m, winner s = Some m -> current_player s = m).
Proof.
  intros H.
  destruct (reachable_orderly s H) as ((_ & Hrun' & Hover') & _ & Hover).
  destruct (game_over s).
  - destruct (Hover eq_refl) as [_ Hw]. specialize (Hover' eq_refl).
    split.
    + intros [HX HO]. destruct (winner s) as [m |].
      * destruct (Hw m eq_refl) as [_ Hother].
        destruct m; cbn in Hother; congruence.
      * destruct Hover' as [_ Hno]. rewrite Hno in HX. discriminate.
    + intros m Hm. now destruct (Hw m Hm).
  - destruct (Hrun' eq_refl) as [Hw Hno]. split.
    + intros [HX _]. rewrite Hno in HX. discriminate.
    + intros m Hm. congruence.
Qed.

Lemma one_winner_at_most_witness :
  ~ (has_win (board x_has_won) (Some MarkX) = true
     /\ has_win (board x_has_won) (Some MarkO) = true)
  /\ (forall m, winner x_has_won = Some m -> current_player x_has_won = m).
Proof. apply one_winner_at_most. apply reachable_x_has_won. Defined.

(** X13.  No game is won early: in a reachable state won by X at least
    five moves have been made, and in one won by O at least six. *)
Theorem no_early_win (s : TicTacToe) (m : mark) :
  reachable s -> query_outcome s = Won m ->
  (match m with MarkX => 5 | MarkO => 6 end) <= moves_count s.
Proof.
  intros H Hwon.
  destruct (reachable_orderly s H) as ((Hn & _ & Hover') & _ & Hover).
  unfold query_outcome in Hwon.
  destruct (game_over s); [| discriminate].
  destruct (winner s) as [w |] eqn:Hw; [| discriminate].
  injection Hwon as ->.
  specialize (Hover' eq_refl). cbn in Hover'.
  destruct (Hover eq_refl) as [Hc Hwin]. destruct (Hwin m eq_refl) as [-> _].
  pose proof (has_win_three _ _ Hover') as H3.
  rewrite Hn, count_marks_split.
  destruct (current_player s); cbn in Hc; lia.
Qed.

Lemma no_early_win_witness : 5 <= moves_count x_has_won.
Proof.
  apply (no_early_win x_has_won MarkX);
    [apply reachable_x_has_won | reflexivity].
Defined.

(** ** Pruning does not change the chosen move *)

Lemma ext_ltb_irrefl (x : ext) : ext_ltb x x = false.
Proof. destruct x; cbn; [reflexivity | apply Z.ltb_irrefl | reflexivity]. Qed.

Section LoopChoices.

Variable rec : search.
Variable prec : TicTacToe -> option ext.
Variable s : TicTacToe.
Variable depth : Z.
Hypothesis no_winner : winner s = None.

(** Once the best is [+inf] no later child takes over. *)
Lemma plain_choice_max_top (cells : list (idx * idx)) :
  children_agree rec prec s depth false MarkO cells ->
  forall best_move,
    plain_choice_loop prec true s cells PosInf best_move
    = Some (PosInf, best_move).
Proof.
  induction cells as [| [row col] rest IH]; intros Hrec bm; [reflexivity |].
  destruct (Hrec row col NegInf PosInf (in_eq _ _) eq_refl)
    as (r & m1 & _ & Hp & _).
  cbn [plain_choice_loop]. rewrite Hp. cbn [ext_ltb]. apply IH.
  intros r0 c0 a0 b0 Hin. apply Hrec. now right.
Qed.

Lemma plain_choice_min_bottom (cells : list (idx * idx)) :
  children_agree rec prec s depth true MarkX cells ->
  forall best_move,
    plain_choice_loop prec false s cells NegInf best_move
    = Some (NegInf, best_move).
Proof.
  induction cells as [| [row col] rest IH]; intros Hrec bm; [reflexivity |].
  destruct (Hrec row col NegInf PosInf (in_eq _ _) eq_refl)
    as (r & m1 & _ & Hp & _).
  cbn [plain_choice_loop]. rewrite Hp.
  replace (ext_ltb m1 NegInf) with false by (now destruct m1).
  apply IH. intros r0 c0 a0 b0 Hin. apply Hrec. now right.
Qed.

(** The maximizing loop run as at the root (alpha equal to the running
    best, beta [+inf]) keeps the best score and the best move of the
    reference loop. *)
Lemma max_loop_choice (cells : list (idx * idx)) :
  (forall row col, In (row, col) cells -> get_cell (board s) row col = None) ->
  children_agree rec prec s depth false MarkO cells ->
  forall best best_move,
    ext_lt best PosInf ->
    exists x best_move',
      max_loop rec cells s depth best best_move best PosInf
      = (Ok (x, best_move'), s)
      /\ plain_choice_loop prec true s cells best best_move
         = Some (x, best_move').
Proof.
  induction cells as [| [row col] rest IH]; intros Hblank Hrec best bm Hlt.
  - exists best, bm. split; reflexivity.
  - assert (Hblank' : forall row col, In (row, col) rest ->
                        get_cell (board s) row col = None)
      by (intros; apply Hblank; now right).
    assert (Hrec' : children_agree rec prec s depth false MarkO rest)
      by (intros r0 c0 a0 b0 Hin; apply Hrec; now right).
    specialize (IH Hblank' Hrec').
    destruct (Hrec row col best PosInf (in_eq _ _) Hlt)
      as (r & m1 & Hcall & Hp & Hb1 & Hb2 & Hb3).
    cbn [max_loop plain_choice_loop]. rewrite Hcall, Hp.
    rewrite undo_place by (auto using in_eq).
    set (v1 := score r) in *. clearbody v1.
    pose proof (le_PosInf m1) as Hm1. pose proof (le_PosInf v1) as Hv1.
    destruct (ext_ltb best v1) eqn:E1.
    + assert (m1 = v1) as -> by (use_bounds; ext_order).
      rewrite E1. unfold ext_max. rewrite E1.
      destruct (ext_leb PosInf v1) eqn:E3.
      * apply ext_leb_true in E3.
        assert (v1 = PosInf) as -> by ext_order.
        exists PosInf, (Some (row, col)). split; [reflexivity |].
        now apply plain_choice_max_top.
      * apply ext_leb_false in E3. now apply IH.
    + assert (E2 : ext_ltb best m1 = false) by (use_bounds; ext_order).
      rewrite E2. unfold ext_max. rewrite ext_ltb_irrefl.
      unfold ext_leb. rewrite Hlt. cbn [negb]. now apply IH.
Qed.

Lemma min_loop_choice (cells : list (idx * idx)) :
  (forall row col, In (row, col) cells -> get_cell (board s) row col = None) ->
  children_agree rec prec s depth true MarkX cells ->
  forall best best_move,
    ext_lt NegInf best ->
    exists x best_move',
      min_loop rec cells s depth best best_move NegInf best
      = (Ok (x, best_move'), s)
      /\ plain_choice_loop prec false s cells best best_move
         = Some (x, best_move').
Proof.
  induction cells as [| [row col] rest IH]; intros Hblank Hrec best bm Hlt.
  - exists best, bm. split; reflexivity.
  - assert (Hblank' : forall row col, In (row, col) rest ->
                        get_cell (board s) row col = None)
      by (intros; apply Hblank; now right).
    assert (Hrec' : children_agree rec prec s depth true MarkX rest)
      by (intros r0 c0 a0 b0 Hin; apply Hrec; now right).
    specialize (IH Hblank' Hrec').
    destruct (Hrec row col NegInf best (in_eq _ _) Hlt)
      as (r & m1 & Hcall & Hp & Hb1 & Hb2 & Hb3).
    cbn [min_loop plain_choice_loop]. rewrite Hcall, Hp.
    rewrite undo_place by (auto using in_eq).
    set (v1 := score r) in *. clearbody v1.
    pose proof (NegInf_le m1) as Hm1. pose proof (NegInf_le v1) as Hv1.
    destruct (ext_ltb v1 best) eqn:E1.
    + assert (m1 = v1) as -> by (use_bounds; ext_order).
      rewrite E1. unfold ext_min. rewrite E1.
      destruct (ext_leb v1 NegInf) eqn:E3.
      * apply ext_leb_true in E3.
        assert (v1 = NegInf) as -> by ext_order.
        exists NegInf, (Some (row, col)). split; [reflexivity |].
        now apply plain_choice_min_bottom.
      * apply ext_leb_false in E3. now apply IH.
    + assert (E2 : ext_ltb m1 best = false) by (use_bounds; ext_order).
      rewrite E2. unfold ext_min. rewrite ext_ltb_irrefl.
      unfold ext_leb. rewrite Hlt. cbn [negb]. now apply IH.
Qed.

End LoopChoices.

Lemma children_of_node_agree (s : TicTacToe) (depth : Z) (is_maximizing : bool)
    (p : mark) :
  children_agree (minimax_fuel 9)
    (plain_minimax_fuel 9 (depth + 1) is_maximizing)
    (set_current_player s p) depth is_maximizing p
    (get_empty_cells (set_current_player s p)).
Proof.
  intros row col a b Hin Hab. apply minimax_fuel_value; [| exact Hab].
  apply in_get_empty_cells in Hin.
  pose proof (get_empty_cells_set _ _ row col p Hin (board_place _ row col p))
    as Hlt.
  pose proof (get_empty_cells_length (set_current_player s p)). lia.
Qed.

Lemma minimax_fuel_S (fuel : nat) (s : TicTacToe) (depth : Z)
    (is_maximizing : bool) (alpha beta : ext) :
  minimax_fuel (S fuel) s depth is_maximizing alpha beta
  = match winner s with
    | Some MarkO => (Ok (leaf (10 - depth)), s)
    | Some MarkX => (Ok (leaf (depth - 10)), s)
    | None =>
      if is_board_full s then (Ok (leaf 0), s)
      else if max_depth (ai_difficulty s) <=? depth then (Ok (leaf 0), s)
      else if is_maximizing then
        match max_loop (minimax_fuel fuel)
                (get_empty_cells (set_current_player s MarkO))
                (set_current_player s MarkO) depth NegInf None alpha beta with
        | (Ok (best_score, best_move), s2) =>
          (Ok (mkResult best_score (Some best_move)),
           set_current_player s2 (current_player s))
        | (IndexError, s2) => (IndexError, s2)
        | (OutOfFuel, s2) => (OutOfFuel, s2)
        end
      else
        match min_loop (minimax_fuel fuel)
                (get_empty_cells (set_current_player s MarkX))
                (set_current_player s MarkX) depth PosInf None alpha beta with
        | (Ok (best_score, best_move), s2) =>
          (Ok (mkResult best_score (Some best_move)),
           set_current_player s2 (current_player s))
        | (IndexError, s2) => (IndexError, s2)
        | (OutOfFuel, s2) => (OutOfFuel, s2)
        end
    end.
Proof. reflexivity. Qed.

Lemma minimax_is_plain_search (s : TicTacToe) (depth : Z)
    (is_maximizing : bool) :
  exists r,
    minimax s depth is_maximizing NegInf PosInf = (Ok r, s)
    /\ plain_search s depth is_maximizing = Some r.
Proof.
  unfold minimax, plain_search. rewrite minimax_fuel_S.
  destruct (winner s) as [[|] |] eqn:Hw; try (eexists; split; reflexivity).
  destruct (is_board_full s); [eexists; split; reflexivity |].
  destruct (_ <=? depth); [eexists; split; reflexivity |].
  destruct is_maximizing; cbn [negb].
  - destruct (max_loop_choice (minimax_fuel 9)
                (plain_minimax_fuel 9 (depth + 1) false)
                (set_current_player s MarkO) depth Hw
                (get_empty_cells (set_current_player s MarkO)))
      with (best := NegInf) (best_move := @None (idx * idx))
      as (x & bm & -> & ->).
    + intros row col. apply in_get_empty_cells.
    + apply children_of_node_agree.
    + reflexivity.
    + rewrite set_current_player_back. eexists. split; reflexivity.
  - destruct (min_loop_choice (minimax_fuel 9)
                (plain_minimax_fuel 9 (depth + 1) true)
                (set_current_player s MarkX) depth Hw
                (get_empty_cells (set_current_player s MarkX)))
      with (best := PosInf) (best_move := @None (idx * idx))
      as (x & bm & -> & ->).
    + intros row col. apply in_get_empty_cells.
    + apply children_of_node_agree.
    + reflexivity.
    + rewrite set_current_player_back. eexists. split; reflexivity.
Qed.

(** X14.  With the default window, [minimax] returns the whole result
    of the search without pruning: not only the score but also the
    move, which is the first cell in row-major order whose plain
    minimax value is the best (and no ['move'] key at a leaf). *)
Theorem pruning_keeps_the_move (s : TicTacToe) (depth : Z)
    (is_maximizing : bool) :
  exists r,
    minimax s depth is_maximizing NegInf PosInf = (Ok r, s)
    /\ plain_search s depth is_maximizing = Some r.
Proof. apply minimax_is_plain_search. Qed.

(** ** The range of the scores *)

Lemma plain_minimax_fuel_S (fuel : nat) (depth : Z) (is_maximizing : bool)
    (s : TicTacToe) :
  plain_minimax_fuel (S fuel) depth is_maximizing s
  = match winner s with
    | Some MarkO => Some (Fin (10 - depth))
    | Some MarkX => Some (Fin (depth - 10))
    | None =>
      if is_board_full s then Some (Fin 0)
      else if max_depth (ai_difficulty s) <=? depth then Some (Fin 0)
      else
        plain_loop (plain_minimax_fuel fuel (depth + 1) (negb is_maximizing))
          is_maximizing
          (set_current_player s (if is_maximizing then MarkO else MarkX))
          (get_empty_cells
             (set_current_player s (if is_maximizing then MarkO else MarkX)))
    end.
Proof. reflexivity. Qed.

(** The count stays right under a speculative placement. *)
Lemma place_counts (s : TicTacToe) (row col : idx) (p : mark) :
  get_cell (board s) row col = None ->
  moves_count s = count_marks (board s) ->
  moves_count (place s row col p) = count_marks (board (place s row col p)).
Proof.
  intros Hc Hn. rewrite board_place, count_marks_set by assumption.
  unfold place. destruct check_win; cbn; lia.
Qed.

(** A position that is not full by its count has a blank cell. *)
Lemma not_full_has_blank (s : TicTacToe) :
  moves_count s = count_marks (board s) ->
  is_board_full s = false -> get_empty_cells s <> [].
Proof.
  intros Hn Hf E. unfold is_board_full in Hf. apply Z.eqb_neq in Hf.
  pose proof (get_empty_cells_count s) as H. rewrite E in H.
  cbn [length] in H. lia.
Qed.

Lemma plain_loop_range (prec : TicTacToe -> option ext) (m : bool)
    (s : TicTacToe) (lo hi : Z) (cells : list (idx * idx)) :
  (forall row col,
      In (row, col) cells ->
      exists v,
        prec (place s row col (if m then MarkO else MarkX)) = Some (Fin v)
        /\ lo <= v <= hi) ->
  cells <> [] ->
  exists v, plain_loop prec m s cells = Some (Fin v) /\ lo <= v <= hi.
Proof.
  induction cells as [| [row col] rest IH]; intros H Hne; [now elim Hne |].
  destruct (H row col (in_eq _ _)) as (v & Hv & Hr).
  cbn [plain_loop]. rewrite Hv.
  destruct rest as [| c' rest'].
  - exists v. split; [| exact Hr]. cbn [plain_loop]. now destruct m.
  - destruct IH as (w & -> & Hw);
      [intros r0 c0 Hin; apply H; now right | discriminate |].
    destruct m; unfold ext_max, ext_min; cbn [ext_ltb];
      destruct (_ <? _); eexists; (split; [reflexivity | lia]).
Qed.

(** On a position whose count is right the plain value is an integer
    between depth - 10 and 10 - depth, for depths up to 10. *)
Lemma plain_range (fuel : nat) :
  forall s depth m,
    (length (get_empty_cells s) < fuel)%nat ->
    moves_count s = count_marks (board s) ->
    depth <= 10 ->
    exists v,
      plain_minimax_fuel fuel depth m s = Some (Fin v)
      /\ depth - 10 <= v <= 10 - depth.
Proof.
  induction fuel as [| fuel IH]; intros s depth m Hlen Hn Hd; [lia |].
  rewrite plain_minimax_fuel_S.
  destruct (winner s) as [[|] |]; try (eexists; split; [reflexivity | lia]).
  destruct (is_board_full s) eqn:Hf; [eexists; split; [reflexivity | lia] |].
  destruct (_ <=? depth) eqn:Hcut; [eexists; split; [reflexivity | lia] |].
  apply Z.leb_gt in Hcut.
  assert (Hmax : max_depth (ai_difficulty s) <= 9)
    by (destruct (ai_difficulty s); cbn; lia).
  set (p := if m then MarkO else MarkX).
  destruct (plain_loop_range
              (plain_minimax_fuel fuel (depth + 1) (negb m)) m
              (set_current_player s p) (depth - 10) (10 - depth)
              (get_empty_cells (set_current_player s p)))
    as (v & Hv & Hr).
  - intros row col Hin. apply in_get_empty_cells in Hin.
    destruct (IH (place (set_current_player s p) row col p)
                 (depth + 1) (negb m)) as (v & Hv & Hr).
    + pose proof (get_empty_cells_set _ _ row col p Hin
                    (board_place _ row col p)) as Hlt.
      rewrite (get_empty_cells_board (set_current_player s p) s eq_refl)
        in Hlt. lia.
    + now apply place_counts.
    + lia.
    + exists v. split; [exact Hv | lia].
  - rewrite (get_empty_cells_board (set_current_player s p) s eq_refl).
    now apply not_full_has_blank.
  - exists v. split; [exact Hv | exact Hr].
Qed.

(** X15.  On a position whose move count is the number of its marks
    (every reachable one), searched at a depth of at most 10, the score
    is never infinite: it is an integer between depth - 10 and
    10 - depth. *)
Theorem minimax_score_range (s : TicTacToe) (depth : Z) (is_maximizing : bool) :
  moves_count s = count_marks (board s) ->
  depth <= 10 ->
  exists r v,
    minimax s depth is_maximizing NegInf PosInf = (Ok r, s)
    /\ score r = Fin v
    /\ depth - 10 <= v <= 10 - depth.
Proof.
  intros Hn Hd.
  pose proof (get_empty_cells_length s) as Hlen.
  destruct (minimax_fuel_value 10 s depth is_maximizing NegInf PosInf)
    as (r & v' & Hr & Hv' & Hb); [lia | reflexivity |].
  destruct (plain_range 10 s depth is_maximizing) as (v & Hv & Hrange);
    [lia | exact Hn | exact Hd |].
  exists r, v. split; [exact Hr |]. split; [| exact Hrange].
  apply bounds_full_window in Hb. congruence.
Qed.

Lemma minimax_score_range_witness :
  exists r v,
    minimax medium_root 0 true NegInf PosInf = (Ok r, medium_root)
    /\ score r = Fin v
    /\ 0 - 10 <= v <= 10 - 0.
Proof. apply minimax_score_range; [reflexivity | lia]. Defined.

(** ** The move the search picks *)

(** What the reference loop of a maximizing node returns: a score at
    least as large as the value of every cell it ran over, and either
    nothing changed or the move is a cell whose value is that score. *)
Lemma plain_choice_max_spec (prec : TicTacToe -> option ext) (s : TicTacToe)
    (cells : list (idx * idx)) :
  forall best bm x bm',
    plain_choice_loop prec true s cells best bm = Some (x, bm') ->
    ext_le best x
    /\ (forall row col v,
           In (row, col) cells ->
           prec (place s row col MarkO) = Some v -> ext_le v x)
    /\ ((x = best /\ bm' = bm)
        \/ exists row col,
             In (row, col) cells /\ bm' = Some (row, col)
             /\ prec (place s row col MarkO) = Some x).
Proof.
  induction cells as [| [row col] rest IH]; intros best bm x bm' H.
  - injection H as <- <-. split; [ext_order |]. split; [| now left].
    intros ? ? ? [].
  - cbn [plain_choice_loop] in H.
    destruct (prec (place s row col MarkO)) as [v |] eqn:Hv; [| discriminate].
    destruct (ext_ltb best v) eqn:E.
    + destruct (IH _ _ _ _ H) as (Hle & Hall & Hsel).
      split; [ext_order |]. split.
      * intros r0 c0 v0 [[= <- <-] | Hin] Hv0.
        -- rewrite Hv in Hv0. injection Hv0 as <-. exact Hle.
        -- exact (Hall r0 c0 v0 Hin Hv0).
      * right. destruct Hsel as [[-> ->] | (r0 & c0 & Hin & -> & Hx)].
        -- exists row, col. split; [now left | split; [reflexivity | exact Hv]].
        -- exists r0, c0. split; [now right | split; [reflexivity | exact Hx]].
    + destruct (IH _ _ _ _ H) as (Hle & Hall & Hsel).
      split; [exact Hle |]. split.
      * intros r0 c0 v0 [[= <- <-] | Hin] Hv0.
        -- rewrite Hv in Hv0. injection Hv0 as <-. ext_order.
        -- exact (Hall r0 c0 v0 Hin Hv0).
      * destruct Hsel as [Hsame | (r0 & c0 & Hin & -> & Hx)];
          [now left | right].
        exists r0, c0. split; [now right | split; [reflexivity | exact Hx]].
Qed.

(** The root search of [ai_move_hard] on a position without a recorded
    winner whose count is right and below nine: it returns a blank cell
    whose plain value is an integer and is the largest of all. *)
Lemma hard_choice (s : TicTacToe) :
  winner s = None ->
  moves_count s = count_marks (board s) ->
  is_board_full s = false ->
  exists row col v,
    minimax s 0 true NegInf PosInf
    = (Ok (mkResult (Fin v) (Some (Some (row, col)))), s)
    /\ get_cell (board s) row col = None
    /\ plain_minimax_fuel 9 1 false
         (place (set_current_player s MarkO) row col MarkO)
       = Some (Fin v)
    /\ forall row' col' v',
         get_cell (board s) row' col' = None ->
         plain_minimax_fuel 9 1 false
           (place (set_current_player s MarkO) row' col' MarkO)
         = Some v' ->
         ext_le v' (Fin v).
Proof.
  intros Hw Hn Hf.
  destruct (minimax_is_plain_search s 0 true) as (r & Hr & Hp).
  unfold plain_search in Hp. rewrite Hw, Hf in Hp.
  replace (max_depth (ai_difficulty s) <=? 0) with false in Hp
    by (now destruct (ai_difficulty s)).
  cbn [negb Z.add] in Hp.
  set (s1 := set_current_player s MarkO) in *.
  assert (Hvals : forall row col,
             In (row, col) (get_empty_cells s1) ->
             exists v,
               plain_minimax_fuel 9 1 false (place s1 row col MarkO)
               = Some (Fin v)).
  { intros row col Hin. apply in_get_empty_cells in Hin.
    destruct (plain_range 9 (place s1 row col MarkO) 1 false)
      as (v & Hv & _); [| now apply place_counts | lia | now exists v].
    pose proof (get_empty_cells_set _ _ row col MarkO Hin
                  (board_place _ row col MarkO)) as Hlt.
    pose proof (get_empty_cells_length s1). lia. }
  destruct (plain_choice_loop _ true s1 _ NegInf None) as [[x bm] |] eqn:E;
    [| discriminate].
  injection Hp as <-.
  destruct (plain_choice_max_spec _ _ _ _ _ _ _ E) as (_ & Hall & Hsel).
  assert (Hne : get_empty_cells s1 <> []) by now apply not_full_has_blank.
  destruct (get_empty_cells s1) as [| [r0 c0] l] eqn:Hcells; [now elim Hne |].
  destruct (Hvals r0 c0 (in_eq _ _)) as (v0 & Hv0).
  pose proof (Hall r0 c0 _ (in_eq _ _) Hv0) as Hge.
  destruct Hsel as [[-> _] | (row & col & Hin & -> & Hx)];
    [discriminate Hge |].
  destruct (Hvals row col Hin) as (v & Hv).
  rewrite Hv in Hx. injection Hx as <-.
  exists row, col, v. split; [exact Hr |].
  rewrite <- Hcells in Hin. apply in_get_empty_cells in Hin.
  split; [exact Hin |]. split; [exact Hv |].
  intros row' col' v' Hblank Hv'. apply (Hall row' col' v'); [| exact Hv'].
  rewrite <- Hcells. now apply in_get_empty_cells.
Qed.

Lemma running_has_blank (s : TicTacToe) :
  reachable s -> game_over s = false ->
  winner s = None
  /\ moves_count s = count_marks (board s)
  /\ is_board_full s = false
  /\ get_empty_cells s <> [].
Proof.
  intros H Hg.
  destruct (reachable_orderly s H) as ((Hn & Hrun' & _) & Hrun & _).
  destruct (Hrun' Hg) as [Hw _]. destruct (Hrun Hg) as [H9 _].
  assert (Hf : is_board_full s = false)
    by (unfold is_board_full; apply Z.eqb_neq; lia).
  repeat split; try assumption. now apply not_full_has_blank.
Qed.

(** X16.  Asked to move in a running reachable game, the computer
    always moves: at every difficulty and under every random draw
    [ai_move] returns normally and the game object it leaves is the
    result of one accepted [make_move] on a cell that was blank. *)
Theorem ai_move_always_moves (s : TicTacToe) (coin : bool) (pick : nat) :
  reachable s -> game_over s = false ->
  exists row col,
    get_cell (board s) row col = None
    /\ ai_move s coin pick = (Ok tt, snd (ai_move s coin pick))
    /\ make_move s (Z_of_idx row) (Z_of_idx col)
       = (Ok true, snd (ai_move s coin pick)).
Proof.
  intros H Hg. destruct (running_has_blank s H Hg) as (Hw & Hn & Hf & Hne).
  assert (Hplay : forall row col,
             get_cell (board s) row col = None ->
             ignore (make_move s (Z_of_idx row) (Z_of_idx col))
             = (Ok tt, snd (make_move s (Z_of_idx row) (Z_of_idx col)))
             /\ make_move s (Z_of_idx row) (Z_of_idx col)
                = (Ok true, snd (make_move s (Z_of_idx row) (Z_of_idx col)))).
  { intros row col Hc. split; [apply ignore_make_move_at_cell |].
    rewrite <- (make_move_on_blank s row col Hg Hc). apply surjective_pairing. }
  assert (Heasy : exists row col,
             get_cell (board s) row col = None
             /\ ai_move_easy s pick = (Ok tt, snd (ai_move_easy s pick))
             /\ make_move s (Z_of_idx row) (Z_of_idx col)
                = (Ok true, snd (ai_move_easy s pick))).
  { unfold ai_move_easy.
    destruct (get_empty_cells s) as [| c0 l] eqn:E; [now elim Hne |].
    assert (Hin : In (nth (pick mod length (c0 :: l))%nat (c0 :: l) c0)
                     (get_empty_cells s)).
    { rewrite E. apply nth_In. apply Nat.mod_upper_bound. discriminate. }
    destruct (nth _ _ _) as [row col]. apply in_get_empty_cells in Hin.
    destruct (Hplay row col Hin) as [Hi Hm].
    exists row, col. rewrite Hi. cbn [snd]. auto. }
  assert (Hhard : exists row col,
             get_cell (board s) row col = None
             /\ ai_move_hard s = (Ok tt, snd (ai_move_hard s))
             /\ make_move s (Z_of_idx row) (Z_of_idx col)
                = (Ok true, snd (ai_move_hard s))).
  { destruct (hard_choice s Hw Hn Hf) as (row & col & v & Hr & Hc & _).
    unfold ai_move_hard. rewrite Hr. cbn [move].
    destruct (Hplay row col Hc) as [Hi Hm].
    exists row, col. rewrite Hi. cbn [snd]. auto. }
  unfold ai_move, ai_move_medium.
  destruct (ai_difficulty s); [exact Heasy | | exact Hhard].
  destruct coin; [exact Hhard | exact Heasy].
Qed.

Lemma ai_move_always_moves_witness :
  exists row col,
    get_cell (board after_first_round) row col = None
    /\ ai_move after_first_round false 5
       = (Ok tt, snd (ai_move after_first_round false 5))
    /\ make_move after_first_round (Z_of_idx row) (Z_of_idx col)
       = (Ok true, snd (ai_move after_first_round false 5)).
Proof.
  apply ai_move_always_moves; [| reflexivity].
  unfold after_first_round.
  eapply reach_ai; [| apply surjective_pairing].
  eapply (reach_move (set_ai new_game true Hard) 0 0);
    [| apply surjective_pairing].
  apply reach_menu, reach_new.
Defined.

(** ** Taking a win *)

(** A node that O has not won, at a depth of at most 9, is worth at
    most 9 - depth (and at most 0 beyond that). *)
Lemma plain_not_won_range (fuel : nat) (s : TicTacToe) (depth : Z) (m : bool) :
  (length (get_empty_cells s) < fuel)%nat ->
  moves_count s = count_marks (board s) ->
  depth <= 9 ->
  winner s <> Some MarkO ->
  exists v,
    plain_minimax_fuel fuel depth m s = Some (Fin v)
    /\ v <= Z.max 0 (9 - depth).
Proof.
  intros Hlen Hn Hd Hw. destruct fuel as [| fuel]; [lia |].
  rewrite plain_minimax_fuel_S.
  destruct (winner s) as [[|] |];
    [eexists; split; [reflexivity | lia] | now elim Hw |].
  destruct (is_board_full s) eqn:Hf; [eexists; split; [reflexivity | lia] |].
  destruct (_ <=? depth) eqn:Hcut; [eexists; split; [reflexivity | lia] |].
  set (p := if m then MarkO else MarkX).
  destruct (plain_loop_range
              (plain_minimax_fuel fuel (depth + 1) (negb m)) m
              (set_current_player s p) (depth - 9) (9 - depth)
              (get_empty_cells (set_current_player s p)))
    as (v & Hv & Hr).
  - intros row col Hin. apply in_get_empty_cells in Hin.
    destruct (plain_range fuel (place (set_current_player s p) row col p)
                (depth + 1) (negb m)) as (v & Hv & Hr).
    + pose proof (get_empty_cells_set _ _ row col p Hin
                    (board_place _ row col p)) as Hlt.
      rewrite (get_empty_cells_board (set_current_player s p) s eq_refl)
        in Hlt. lia.
    + now apply place_counts.
    + lia.
    + exists v. split; [exact Hv | lia].
  - rewrite (get_empty_cells_board (set_current_player s p) s eq_refl).
    now apply not_full_has_blank.
  - exists v. split; [exact Hv | lia].
Qed.

(** X17.  The search takes a win that is one move away: in a running
    reachable game with O to move and a blank cell that completes a line
    of O, [ai_move_hard] (whatever depth limit the difficulty sets) ends
    the game as won by O. *)
Theorem ai_move_hard_takes_the_win (s : TicTacToe) :
  reachable s -> game_over s = false -> current_player s = MarkO ->
  (exists row col,
      get_cell (board s) row col = None
      /\ has_win (set_cell (board s) row col (Some MarkO)) (Some MarkO) = true) ->
  query_outcome (snd (ai_move_hard s)) = Won MarkO.
Proof.
  intros H Hg Hcp (wr & wc & Hwc & Hwin).
  destruct (running_has_blank s H Hg) as (Hw & Hn & Hf & _).
  destruct (hard_choice s Hw Hn Hf) as (row & col & v & Hr & Hc & Hv & Hall).
  set (s1 := set_current_player s MarkO) in *.
  assert (Hlen : forall r c, get_cell (board s) r c = None ->
             (length (get_empty_cells (place s1 r c MarkO)) < 9)%nat).
  { intros r c Hb.
    pose proof (get_empty_cells_set s1 _ r c MarkO Hb
                  (board_place _ r c MarkO)) as Hlt.
    pose proof (get_empty_cells_length s1). lia. }
  (* the winning cell is worth 9 *)
  assert (H9 : 9 <= v).
  { assert (Hval : plain_minimax_fuel 9 1 false (place s1 wr wc MarkO)
                   = Some (Fin 9)).
    { rewrite plain_minimax_fuel_S. unfold place, check_win. cbn.
      rewrite Hwin. reflexivity. }
    specialize (Hall wr wc _ Hwc Hval). unfold ext_le in Hall. cbn in Hall.
    apply Z.ltb_ge in Hall. exact Hall. }
  (* so the chosen cell completes a line too *)
  assert (Hchosen : has_win (set_cell (board s) row col (Some MarkO))
                            (Some MarkO) = true).
  { destruct (has_win (set_cell (board s) row col (Some MarkO)) (Some MarkO))
      eqn:E; [reflexivity | exfalso].
    destruct (plain_not_won_range 9 (place s1 row col MarkO) 1 false)
      as (v' & Hv' & Hle).
    - now apply Hlen.
    - now apply place_counts.
    - lia.
    - unfold place, check_win. cbn. rewrite E. cbn. rewrite Hw. discriminate.
    - rewrite Hv in Hv'. injection Hv' as <-. lia. }
  unfold ai_move_hard. rewrite Hr. cbn [move].
  rewrite ignore_make_move_at_cell. cbn [snd].
  unfold make_move. rewrite Hg, !py_index_Z_of_idx, Hc. cbv zeta.
  unfold check_win. cbn [board current_player set_board set_moves_count].
  rewrite Hcp, Hchosen. reflexivity.
Qed.

Lemma ai_move_hard_takes_the_win_witness :
  query_outcome (snd (ai_move_hard o_to_win)) = Won MarkO.
Proof.
  apply ai_move_hard_takes_the_win.
  - unfold o_to_win.
    repeat (eapply reach_move; [| apply surjective_pairing]).
    apply reach_menu, reach_new.
  - reflexivity.
  - reflexivity.
  - exists I0, I2. split; reflexivity.
Defined.

(** ** Blocking a threat *)

Lemma set_cell_comm (b : grid) (r c r' c' : idx) (x y : cell) :
  (r, c) <> (r', c') ->
  set_cell (set_cell b r c x) r' c' y = set_cell (set_cell b r' c' y) r c x.
Proof.
  destruct b as [[[[a0 a1] a2] [[b0 b1] b2]] [[c0 c1] c2]].
  destruct r, c, r', c'; intros H; try reflexivity; now elim H.
Qed.

(** A line completed by [q] at one cell is not affected by a mark of the
    other player on another blank cell. *)
Lemma has_win_after_other (b : grid) (r c r' c' : idx) (p q : mark) :
  (r, c) <> (r', c') -> get_cell b r c = None -> q <> p ->
  has_win (set_cell (set_cell b r c (Some p)) r' c' (Some q)) (Some q)
  = has_win (set_cell b r' c' (Some q)) (Some q).
Proof.
  intros Hne Hb Hq. rewrite set_cell_comm by exact Hne.
  apply has_win_other; [| exact Hq].
  rewrite get_set_other by (intros E; apply Hne; congruence). exact Hb.
Qed.

(** A node that X has not won, at a depth of at most 9, is worth at
    least depth - 9 (and at least 0 beyond that). *)
Lemma plain_not_lost_range (fuel : nat) (s : TicTacToe) (depth : Z) (m : bool) :
  (length (get_empty_cells s) < fuel)%nat ->
  moves_count s = count_marks (board s) ->
  depth <= 9 ->
  winner s <> Some MarkX ->
  exists v,
    plain_minimax_fuel fuel depth m s = Some (Fin v)
    /\ Z.min 0 (depth - 9) <= v.
Proof.
  intros Hlen Hn Hd Hw. destruct fuel as [| fuel]; [lia |].
  rewrite plain_minimax_fuel_S.
  destruct (winner s) as [[|] |];
    [now elim Hw | eexists; split; [reflexivity | lia] |].
  destruct (is_board_full s) eqn:Hf; [eexists; split; [reflexivity | lia] |].
  destruct (_ <=? depth) eqn:Hcut; [eexists; split; [reflexivity | lia] |].
  set (p := if m then MarkO else MarkX).
  destruct (plain_loop_range
              (plain_minimax_fuel fuel (depth + 1) (negb m)) m
              (set_current_player s p) (depth - 9) (9 - depth)
              (get_empty_cells (set_current_player s p)))
    as (v & Hv & Hr).
  - intros row col Hin. apply in_get_empty_cells in Hin.
    destruct (plain_range fuel (place (set_current_player s p) row col p)
                (depth + 1) (negb m)) as (v & Hv & Hr).
    + pose proof (get_empty_cells_set _ _ row col p Hin
                    (board_place _ row col p)) as Hlt.
      rewrite (get_empty_cells_board (set_current_player s p) s eq_refl)
        in Hlt. lia.
    + now apply place_counts.
    + lia.
    + exists v. split; [exact Hv | lia].
  - rewrite (get_empty_cells_board (set_current_player s p) s eq_refl).
    now apply not_full_has_blank.
  - exists v. split; [exact Hv | lia].
Qed.

(** The value of a minimizing loop is at most the value of each of its
    cells. *)
Lemma plain_loop_min_le (prec : TicTacToe -> option ext) (s : TicTacToe)
    (cells : list (idx * idx)) (w : ext) :
  plain_loop prec false s cells = Some w ->
  forall row col v,
    In (row, col) cells -> prec (place s row col MarkX) = Some v -> ext_le w v.
Proof.
  revert w. induction cells as [| [r c] rest IH]; intros w H row col v Hin Hv;
    [contradiction |].
  cbn [plain_loop] in H.
  destruct (prec (place s r c MarkX)) as [v1 |] eqn:Hv1; [| discriminate].
  destruct (plain_loop prec false s rest) as [w1 |] eqn:Hw1; [| discriminate].
  injection H as <-. unfold ext_min.
  destruct Hin as [[= <- <-] | Hin].
  - rewrite Hv1 in Hv. injection Hv as <-.
    destruct (ext_ltb w1 v1) eqn:E; ext_order.
  - pose proof (IH w1 eq_refl row col v Hin Hv) as Hle.
    destruct (ext_ltb w1 v1) eqn:E; ext_order.
Qed.

Lemma plain_child_won (fuel : nat) (s : TicTacToe) (r c : idx) (p : mark)
    (depth : Z) (m : bool) :
  current_player s = p ->
  has_win (set_cell (board s) r c (Some p)) (Some p) = true ->
  plain_minimax_fuel (S fuel) depth m (place s r c p)
  = Some (Fin (match p with MarkO => 10 - depth | MarkX => depth - 10 end)).
Proof.
  intros Hp Hwin. rewrite plain_minimax_fuel_S. unfold place, check_win.
  cbn. rewrite Hp, Hwin. cbn. now destruct p.
Qed.

Lemma winner_place_not_won (s : TicTacToe) (r c : idx) (p : mark) :
  current_player s = p ->
  has_win (set_cell (board s) r c (Some p)) (Some p) = false ->
  winner (place s r c p) = winner s.
Proof.
  intros Hp Hwin. unfold place, check_win. cbn. now rewrite Hp, Hwin.
Qed.

Lemma cell_pos_dec (a b : idx * idx) : {a = b} + {a <> b}.
Proof. repeat decide equality. Qed.

(** X18.  The search blocks: in a running reachable game at Medium or
    Hard depth with O to move, where O cannot win at once and X
    threatens to complete a line at exactly one blank cell,
    [ai_move_hard] puts O's mark on that cell. *)
Theorem ai_move_hard_blocks (s : TicTacToe) (tr tc : idx) :
  reachable s -> game_over s = false -> current_player s = MarkO ->
  ai_difficulty s <> Easy ->
  get_cell (board s) tr tc = None ->
  has_win (set_cell (board s) tr tc (Some MarkX)) (Some MarkX) = true ->
  (forall r c,
      get_cell (board s) r c = None ->
      has_win (set_cell (board s) r c (Some MarkO)) (Some MarkO) = false) ->
  (forall r c,
      get_cell (board s) r c = None -> (r, c) <> (tr, tc) ->
      has_win (set_cell (board s) r c (Some MarkX)) (Some MarkX) = false) ->
  ai_move_hard s = (Ok tt, snd (make_move s (Z_of_idx tr) (Z_of_idx tc)))
  /\ get_cell (board (snd (ai_move_hard s))) tr tc = Some MarkO.
Proof.
  intros H Hg Hcp Hdiff Ht Hthreat Hnowin Hsingle.
  destruct (running_has_blank s H Hg) as (Hw & Hn & Hf & _).
  destruct (hard_choice s Hw Hn Hf) as (row & col & v & Hr & Hc & Hv & Hall).
  set (s1 := set_current_player s MarkO) in *.
  (* every child of the root: no winner, right count, a known board *)
  assert (Hchild : forall r c,
             get_cell (board s) r c = None ->
             winner (place s1 r c MarkO) = None
             /\ moves_count (place s1 r c MarkO)
                = count_marks (board (place s1 r c MarkO))
             /\ board (place s1 r c MarkO)
                = set_cell (board s) r c (Some MarkO)
             /\ (length (get_empty_cells (place s1 r c MarkO)) < 9)%nat).
  { intros r c Hb. split; [| split; [| split]].
    - rewrite winner_place_not_won; [exact Hw | reflexivity |].
      now apply Hnowin.
    - exact (place_counts s1 r c MarkO Hb Hn).
    - exact (board_place s1 r c MarkO).
    - pose proof (get_empty_cells_set s1 _ r c MarkO Hb
                    (board_place _ r c MarkO)) as Hlt.
      pose proof (get_empty_cells_length s1). lia. }
  (* the grandchildren: X's answer at a blank cell of a child *)
  assert (Hgrand : forall r c r' c',
             get_cell (board s) r c = None ->
             get_cell (board (place s1 r c MarkO)) r' c' = None ->
             (r, c) <> (r', c')
             /\ get_cell (board s) r' c' = None
             /\ has_win
                  (set_cell (board (place s1 r c MarkO)) r' c' (Some MarkX))
                  (Some MarkX)
                = has_win (set_cell (board s) r' c' (Some MarkX)) (Some MarkX)).
  { intros r c r' c' Hb Hb'. destruct (Hchild r c Hb) as (_ & _ & Hbd & _).
    rewrite Hbd in Hb' |- *.
    assert (Hne : (r, c) <> (r', c')).
    { intros [= <- <-]. rewrite get_set_same in Hb'. discriminate. }
    split; [exact Hne |].
    rewrite get_set_other in Hb' by (intros E; apply Hne; congruence).
    split; [exact Hb' |].
    apply has_win_after_other; [exact Hne | exact Hb | discriminate]. }
  assert (Hcut : (max_depth (ai_difficulty s) <=? 1) = false)
    by (destruct (ai_difficulty s); [now elim Hdiff | reflexivity ..]).
  (* the blocking move is worth at least -7 *)
  assert (HA : exists vt,
             plain_minimax_fuel 9 1 false (place s1 tr tc MarkO)
             = Some (Fin vt) /\ -7 <= vt).
  { destruct (Hchild tr tc Ht) as (Hw' & Hn' & Hbd & Hlen).
    rewrite plain_minimax_fuel_S, Hw'.
    destruct (is_board_full (place s1 tr tc MarkO)) eqn:Hf';
      [exists 0; split; [reflexivity | lia] |].
    destruct (max_depth (ai_difficulty (place s1 tr tc MarkO)) <=? 1);
      [exists 0; split; [reflexivity | lia] |].
    cbn [negb Z.add].
    set (ct := place s1 tr tc MarkO) in *.
    set (s2 := set_current_player ct MarkX).
    destruct (plain_loop_range (plain_minimax_fuel 8 2 true) false s2 (-7) 8
                (get_empty_cells s2)) as (w & Hw2 & Hr2).
    - intros r' c' Hin. apply in_get_empty_cells in Hin.
      destruct (Hgrand tr tc r' c' Ht Hin) as (Hne & Hb' & Hsame).
      assert (Hlen' : (length (get_empty_cells (place s2 r' c' MarkX)) < 8)%nat).
      { pose proof (get_empty_cells_set s2 _ r' c' MarkX Hin
                      (board_place _ r' c' MarkX)) as Hlt.
        rewrite (get_empty_cells_board s2 ct eq_refl) in Hlt. lia. }
      assert (Hn2 : moves_count (place s2 r' c' MarkX)
                    = count_marks (board (place s2 r' c' MarkX)))
        by now apply place_counts.
      destruct (plain_range 8 (place s2 r' c' MarkX) 2 true Hlen' Hn2)
        as (x & Hx & Hxr); [lia |].
      destruct (plain_not_lost_range 8 (place s2 r' c' MarkX) 2 true Hlen' Hn2)
        as (x' & Hx' & Hxl); [lia | |].
      + rewrite winner_place_not_won; [cbn; rewrite Hw'; discriminate
                                      | reflexivity |].
        change (board s2) with (board (place s1 tr tc MarkO)). rewrite Hsame.
        apply Hsingle; [exact Hb' |]. intros E. apply Hne. congruence.
      + rewrite Hx in Hx'. injection Hx' as <-.
        exists x. split; [exact Hx | lia].
    - rewrite (get_empty_cells_board s2 ct eq_refl).
      now apply not_full_has_blank.
    - exists w. split; [exact Hw2 | lia]. }
  (* every other move is worth at most -8 *)
  assert (HB : forall r c vc,
             get_cell (board s) r c = None -> (r, c) <> (tr, tc) ->
             plain_minimax_fuel 9 1 false (place s1 r c MarkO)
             = Some (Fin vc) ->
             vc <= -8).
  { intros r c vc Hb Hne Hvc.
    destruct (Hchild r c Hb) as (Hw' & Hn' & Hbd & Hlen).
    assert (Htb : get_cell (board (place s1 r c MarkO)) tr tc = None).
    { rewrite Hbd, get_set_other by (intros E; apply Hne; congruence).
      exact Ht. }
    rewrite plain_minimax_fuel_S, Hw' in Hvc.
    assert (Hf' : is_board_full (place s1 r c MarkO) = false).
    { unfold is_board_full. apply Z.eqb_neq. rewrite Hn'.
      pose proof (get_empty_cells_count (place s1 r c MarkO)) as Hcnt.
      apply in_get_empty_cells in Htb.
      destruct (get_empty_cells (place s1 r c MarkO));
        [contradiction | cbn [length] in Hcnt; lia]. }
    rewrite Hf' in Hvc.
    change (ai_difficulty (place s1 r c MarkO)) with
      (ai_difficulty (place s1 r c MarkO)) in Hvc.
    replace (ai_difficulty (place s1 r c MarkO)) with (ai_difficulty s) in Hvc
      by (unfold place; now destruct check_win).
    rewrite Hcut in Hvc. cbn [negb Z.add] in Hvc.
    set (cc := place s1 r c MarkO) in *.
    set (s2 := set_current_player cc MarkX) in *.
    destruct (Hgrand r c tr tc Hb Htb) as (_ & _ & Hsame).
    assert (Hgt : plain_minimax_fuel 8 2 true (place s2 tr tc MarkX)
                  = Some (Fin (2 - 10))).
    { apply (plain_child_won 7 s2 tr tc MarkX 2 true); [reflexivity |].
      change (board s2) with (board (place s1 r c MarkO)). now rewrite Hsame. }
    pose proof (plain_loop_min_le _ _ _ _ Hvc tr tc _
                  (proj2 (in_get_empty_cells s2 tr tc) Htb) Hgt) as Hle.
    unfold ext_le in Hle. cbn in Hle. apply Z.ltb_ge in Hle. lia. }
  (* so the chosen cell is the threatened one *)
  destruct HA as (vt & Hvt & Hvt7).
  pose proof (Hall tr tc _ Ht Hvt) as Hge.
  unfold ext_le in Hge. cbn in Hge. apply Z.ltb_ge in Hge.
  assert (Hsel : (row, col) = (tr, tc)).
  { destruct (cell_pos_dec (row, col) (tr, tc)) as [E | Hne]; [exact E |].
    pose proof (HB row col v Hc Hne Hv). lia. }
  injection Hsel as -> ->.
  assert (Hai : ai_move_hard s
                = (Ok tt, snd (make_move s (Z_of_idx tr) (Z_of_idx tc)))).
  { unfold ai_move_hard. rewrite Hr. cbn [move].
    apply ignore_make_move_at_cell. }
  split; [exact Hai |]. rewrite Hai. cbn [snd].
  pose proof (make_move_on_blank s tr tc Hg Ht) as Hok.
  destruct (make_move s (Z_of_idx tr) (Z_of_idx tc)) as [x s'] eqn:Hm.
  cbn [fst snd] in *. subst x.
  destruct (make_move_accepted_inv _ _ _ _ Hm)
    as (_ & r & c & Hr' & Hc' & _ & Hbd & _).
  rewrite py_index_Z_of_idx in Hr', Hc'. injection Hr' as <-. injection Hc' as <-.
  rewrite Hbd, get_set_same, Hcp. reflexivity.
Qed.

Lemma ai_move_hard_blocks_witness :
  ai_move_hard o_must_block
  = (Ok tt, snd (make_move o_must_block (Z_of_idx I0) (Z_of_idx I2)))
  /\ get_cell (board (snd (ai_move_hard o_must_block))) I0 I2 = Some MarkO.
Proof.
  apply ai_move_hard_blocks.
  - unfold o_must_block.
    repeat (eapply reach_move; [| apply surjective_pairing]).
    apply reach_menu, reach_new.
  - reflexivity.
  - reflexivity.
  - vm_compute. discriminate.
  - reflexivity.
  - reflexivity.
  - intros [] [] Hb; vm_compute in Hb; try discriminate Hb;
      vm_compute; reflexivity.
  - intros [] [] Hb Hne; vm_compute in Hb; try discriminate Hb;
      try (now elim Hne); vm_compute; reflexivity.
Defined.

(** * The GUI *)

(** ** Clicks and drawn cells *)

Lemma click_in_cell_iff (row col : idx) (x y : Z) :
  collidepoint (cell_rect (Z_of_idx row) (Z_of_idx col)) (x, y) = true
  <-> collidepoint board_rect (x, y) = true
      /\ clicked_cell (x, y) = (Z_of_idx row, Z_of_idx col).
Proof.
  unfold clicked_cell, cell_rect, collidepoint, board_rect, CELL_SIZE,
    BOARD_SIZE, SCREEN_WIDTH, SCREEN_HEIGHT.
  change ((600 - 450) / 2) with 75. change ((700 - 450) / 2) with 125.
  change (450 / 3) with 150.
  rewrite !andb_true_iff, !Z.leb_le, !Z.ltb_lt.
  pose proof (Z.div_mod (x - 75) 150 ltac:(lia)).
  pose proof (Z.mod_pos_bound (x - 75) 150 ltac:(lia)).
  pose proof (Z.div_mod (y - 125) 150 ltac:(lia)).
  pose proof (Z.mod_pos_bound (y - 125) 150 ltac:(lia)).
  split.
  - intros H3. split; [destruct row, col; cbn [Z_of_idx] in *; lia |].
    f_equal; destruct row, col; cbn [Z_of_idx] in *; lia.
  - intros [_ E]. injection E as Er Ec.
    destruct row, col; cbn [Z_of_idx] in *; lia.
Qed.

(** X19.  The click test and the drawing agree: a point whose
    coordinates fit a C [int] is inside the square in which [draw]
    paints cell (row, col) exactly when it is on the board and
    [handle_click] computes (row, col) for it; and a click inside that
    square is [make_move] at (row, col). *)
Theorem click_in_drawn_cell (s : TicTacToe) (row col : idx) (mouse_pos : Z * Z) :
  int_coords mouse_pos ->
  (collidepoint (cell_rect (Z_of_idx row) (Z_of_idx col)) mouse_pos = true
   <-> collidepoint board_rect mouse_pos = true
       /\ clicked_cell mouse_pos = (Z_of_idx row, Z_of_idx col))
  /\ (collidepoint (cell_rect (Z_of_idx row) (Z_of_idx col)) mouse_pos = true ->
      handle_click s mouse_pos = make_move s (Z_of_idx row) (Z_of_idx col)).
Proof.
  destruct mouse_pos as [x y]. intros _.
  split; [apply click_in_cell_iff |].
  intros H. apply click_in_cell_iff in H. destruct H as [Hb Hc].
  unfold handle_click. rewrite Hb, Hc. cbn [negb].
  unfold make_move. now destruct (game_over s).
Qed.

Lemma click_in_drawn_cell_witness :
  handle_click new_game (400, 200) = make_move new_game (Z_of_idx I0) (Z_of_idx I2).
Proof.
  apply (click_in_drawn_cell new_game I0 I2 (400, 200));
    [split; cbn; unfold c_int; lia | reflexivity].
Defined.

(** ** The menu *)

Lemma handle_events_chain (events : list event) (mouse_pos : Z * Z) :
  handle_events events mouse_pos
  = if existsb (fun e => match e with MouseButtonDown 1 => true | _ => false end)
         events
    then match clicked_button mouse_pos with Some a => a | None => NoAction end
    else NoAction.
Proof.
  induction events as [| e rest IH]; [reflexivity |].
  destruct e as [| k | b |]; cbn [handle_events existsb orb]; try exact IH.
  destruct b as [| [p | p |] |]; cbn [orb]; try exact IH.
  rewrite IH. destruct (clicked_button mouse_pos); [reflexivity |].
  now destruct (existsb _ rest).
Qed.

(** X20.  The menu returns the action of a button exactly when the
    events hold a left click and the mouse is inside that button; the
    five buttons do not overlap, so the order of the tests plays no
    role; and without a left click, or with the mouse outside every
    button, the action is ["none"]. *)
Theorem menu_click (events : list event) (mouse_pos : Z * Z) :
  let clicked := In (MouseButtonDown 1) events in
  let inside r := collidepoint r mouse_pos = true in
  let a := handle_events events mouse_pos in
  (a = StartGame false None <-> clicked /\ inside human_vs_human_button)
  /\ (a = StartGame true (Some Easy)
      <-> clicked /\ inside human_vs_ai_easy_button)
  /\ (a = StartGame true (Some Medium)
      <-> clicked /\ inside human_vs_ai_medium_button)
  /\ (a = StartGame true (Some Hard)
      <-> clicked /\ inside human_vs_ai_hard_button)
  /\ (a = QuitGame <-> clicked /\ inside quit_button)
  /\ (a = NoAction
      <-> ~ clicked
          \/ ~ (inside human_vs_human_button \/ inside human_vs_ai_easy_button
                \/ inside human_vs_ai_medium_button
                \/ inside human_vs_ai_hard_button \/ inside quit_button)).
Proof.
  cbv zeta. rewrite handle_events_chain.
  assert (Hex : existsb (fun e => match e with MouseButtonDown 1 => true
                                       | _ => false end) events = true
                <-> In (MouseButtonDown 1) events).
  { rewrite existsb_exists. split.
    - intros (e & Hin & He). destruct e as [| k | b |]; try discriminate.
      destruct b as [| [p | p |] |]; try discriminate. exact Hin.
    - intros Hin. now exists (MouseButtonDown 1). }
  destruct (existsb _ events).
  2: { assert (Hno : ~ In (MouseButtonDown 1) events)
         by (intros Hin; apply Hex in Hin; discriminate).
       repeat split; try discriminate; try (intros [Hc _]; now elim Hno).
       now left. }
  assert (Hc : In (MouseButtonDown 1) events) by now apply Hex.
  clear Hex. destruct mouse_pos as [x y].
  unfold clicked_button, is_clicked, collidepoint, human_vs_human_button,
    human_vs_ai_easy_button, human_vs_ai_medium_button,
    human_vs_ai_hard_button, quit_button, center_x, button_width,
    button_height, SCREEN_WIDTH.
  change (600 / 2 - 250 / 2) with 175.
  rewrite !andb_true_r.
  repeat (match goal with
          | |- context [?a <=? ?b] =>
            let E := fresh "E" in
            destruct (Z.leb_spec a b) as [E | E]
          | |- context [?a <? ?b] =>
            let E := fresh "E" in
            destruct (Z.ltb_spec a b) as [E | E]
          end; try (exfalso; lia));
    cbn [andb];
    repeat split; try discriminate; try tauto;
    try (intros [_ Hin]; discriminate Hin);
    try (intros [Hn | Hn]; exfalso; apply Hn; tauto);
    try (intros _; right; intros [K | [K | [K | [K | K]]]]; discriminate K).
Qed.

Lemma menu_click_witness :
  handle_events [KeyDown 27; MouseButtonDown 1] (300, 380)
  = StartGame true (Some Hard).
Proof.
  destruct (menu_click [KeyDown 27; MouseButtonDown 1] (300, 380))
    as (_ & _ & _ & [_ H] & _).
  apply H. split; [right; left; reflexivity | reflexivity].
Defined.
